(** * image-clone-controller: the reconciliation engine

    A shallow embedding of [controllers/image_clone_controller.go]:
    the destination naming scheme ([toDestinationImage]), the pod template
    rewrite ([reconcilePodTemplate]), the two reconcilers
    ([ReconcileDeployment], [ReconcileDaemonSet]) and the namespace filter
    ([namespacePredicate], [SetupWithManager]).

    Go strings are byte strings, so they are [string] here (a list of
    [ascii] bytes).  The collaborators the controller only calls (the
    object store, the image transfer, the event recorder) are an explicit
    [World] that is threaded through every call.  Log lines are left out. *)

From Stdlib Require Import String Ascii List Bool Arith Lia.
From stdpp Require Import base decidable gmap strings list.

Import ListNotations.
Local Open Scope string_scope.
Local Open Scope list_scope.

(** ** Errors and results *)

(** Go [error] values.  Only the kind of an error and what it wraps are kept;
    the rendered text of a message is not. *)
Inductive error : Type :=
| ErrBadName (what subject : string)             (* name.ErrBadName *)
| StatusNotFound                                 (* apierrors: reason NotFound *)
| StatusConflict                                 (* apierrors: reason Conflict *)
| ErrOther (msg : string)                        (* any other failure of a collaborator *)
| Errorf (format : string) (args : list string) (wrapped : error). (* fmt.Errorf with %w *)

Inductive result (A : Type) : Type :=
| Ok (a : A)
| Err (e : error).
Arguments Ok {A} a.
Arguments Err {A} e.

Definition isOk {A} (r : result A) : bool :=
  match r with Ok _ => true | Err _ => false end.

#[global] Instance error_eq_dec : EqDecision error.
Proof. solve_decision. Defined.

(** ** The fragment of Go's [strings] package the controller relies on.
    Every separator and replaced character in the source is a one-byte
    constant, so separators are [ascii] here. *)
Module strings.

Fixpoint ContainsRune (s : string) (r : ascii) : bool :=
  match s with
  | EmptyString => false
  | String c s' => Ascii.eqb c r || ContainsRune s' r
  end.

(** [strings.Contains s sep] for a one-byte [sep]. *)
Definition Contains (s : string) (sep : ascii) : bool := ContainsRune s sep.

(** [strings.Split s sep]: all pieces between separators; [""] gives [[""]]. *)
Fixpoint Split (s : string) (sep : ascii) : list string :=
  match s with
  | EmptyString => [EmptyString]
  | String c s' =>
      if Ascii.eqb c sep then EmptyString :: Split s' sep
      else match Split s' sep with
           | [] => [String c EmptyString]
           | p :: ps => String c p :: ps
           end
  end.

(** [strings.SplitN s sep 2]: cut at the first separator, if any. *)
Fixpoint SplitN2 (s : string) (sep : ascii) : list string :=
  match s with
  | EmptyString => [EmptyString]
  | String c s' =>
      if Ascii.eqb c sep then [EmptyString; s']
      else match SplitN2 s' sep with
           | p :: ps => String c p :: ps
           | [] => [String c EmptyString]
           end
  end.

(** [strings.Join parts sep]. *)
Fixpoint Join (parts : list string) (sep : ascii) : string :=
  match parts with
  | [] => EmptyString
  | [p] => p
  | p :: ps => p +:+ String sep (Join ps sep)
  end.

(** [strings.Map mapping s]; a mapping that answers [None] drops the byte
    (Go: a negative rune). *)
Fixpoint Map (mapping : ascii -> option ascii) (s : string) : string :=
  match s with
  | EmptyString => EmptyString
  | String c s' =>
      match mapping c with
      | Some c' => String c' (Map mapping s')
      | None => Map mapping s'
      end
  end.

(** [strings.ReplaceAll s old new] for one-byte [old] and [new]. *)
Fixpoint ReplaceAll (s : string) (old new : ascii) : string :=
  match s with
  | EmptyString => EmptyString
  | String c s' =>
      String (if Ascii.eqb c old then new else c) (ReplaceAll s' old new)
  end.

(** [strings.NewReplacer(pairs...).Replace s] for one-byte pairs: the first
    pair whose old byte matches wins. *)
Fixpoint replaceByte (pairs : list (ascii * ascii)) (c : ascii) : ascii :=
  match pairs with
  | [] => c
  | (old, new) :: rest => if Ascii.eqb c old then new else replaceByte rest c
  end.

Fixpoint Replace (pairs : list (ascii * ascii)) (s : string) : string :=
  match s with
  | EmptyString => EmptyString
  | String c s' => String (replaceByte pairs c) (Replace pairs s')
  end.

(** [strings.Repeat s count]. *)
Fixpoint Repeat (s : string) (count : nat) : string :=
  match count with
  | O => EmptyString
  | S n => s +:+ Repeat s n
  end.

Fixpoint HasPrefix (s prefix : string) : bool :=
  match prefix, s with
  | EmptyString, _ => true
  | String p prefix', String c s' => Ascii.eqb c p && HasPrefix s' prefix'
  | String _ _, EmptyString => false
  end.

End strings.

(** ** Image references: [github.com/google/go-containerregistry/pkg/name]

    The controller parses, inspects and prints image references only through
    this package, which is a dependency and not part of the controller's own
    file.  It is embedded here with the default options that the controller
    uses (weak validation, default registry and default tag). *)
Module name.

Definition DefaultRegistry : string := "index.docker.io".
Definition defaultRegistryAlias : string := "docker.io".
Definition DefaultTag : string := "latest".
Definition defaultNamespace : string := "library".

Definition tagChars : string :=
  "abcdefghijklmnopqrstuvwxyzABCDEFGHIJKLMNOPQRSTUVWXYZ0123456789_-.".
Definition repositoryChars : string :=
  "abcdefghijklmnopqrstuvwxyz0123456789_-./".
Definition digestChars : string := "sh:0123456789abcdef".

Definition tagDelim : ascii := ":".
Definition regRepoDelimiter : ascii := "/".
Definition digestDelim : ascii := "@".

(** *** Data: [Registry], [Repository], [Tag], [Digest], [Reference] *)

Record Registry : Type := mkRegistry
  { insecure : bool;
    registry : string }.

Record Repository : Type := mkRepository
  { Repository_Registry : Registry;   (* embedded struct *)
    repository : string }.

Record Tag : Type := mkTag
  { Tag_Repository : Repository;      (* embedded struct *)
    tag : string;
    Tag_original : string }.

Record Digest : Type := mkDigest
  { Digest_Repository : Repository;   (* embedded struct *)
    digest : string;
    Digest_original : string }.

(** The [Reference] interface has exactly these two implementations. *)
Inductive Reference : Type :=
| RefTag (t : Tag)
| RefDigest (d : Digest).

#[global] Instance Registry_eq_dec : EqDecision Registry.
Proof. solve_decision. Defined.
#[global] Instance Repository_eq_dec : EqDecision Repository.
Proof. solve_decision. Defined.
#[global] Instance Tag_eq_dec : EqDecision Tag.
Proof. solve_decision. Defined.
#[global] Instance Digest_eq_dec : EqDecision Digest.
Proof. solve_decision. Defined.
#[global] Instance Reference_eq_dec : EqDecision Reference.
Proof. solve_decision. Defined.

(** *** check.go *)

(** [stripRunesFn runes]: drop the bytes that occur in [runes]. *)
Definition stripRunesFn (runes : string) (r : ascii) : option ascii :=
  if strings.ContainsRune runes r then None else Some r.

(** [checkElement]: length between [minRunes] and [maxRunes], and nothing
    left once the allowed characters are stripped.  Go counts runes for the
    length; every allowed character is one byte, and a string with any other
    byte is refused by the second test whatever its length, so counting
    bytes gives the same verdict. *)
Definition checkElement (what element allowedRunes : string)
    (minRunes maxRunes : nat) : option error :=
  let numRunes := String.length element in
  if ((numRunes <? minRunes) || (maxRunes <? numRunes))%nat then
    Some (ErrBadName (what +:+ " length out of range") element)
  else if negb (String.length (strings.Map (stripRunesFn allowedRunes) element) =? 0)%nat then
    Some (ErrBadName (what +:+ " has a character that is not allowed") element)
  else None.

Definition checkTag (name : string) : option error :=
  checkElement "tag" name tagChars 1 128.

Definition checkRepository (repository : string) : option error :=
  checkElement "repository" repository repositoryChars 2 255.

Definition checkDigest (name : string) : option error :=
  checkElement "digest" name digestChars (7 + 64) (7 + 64).

(** *** registry.go *)

Definition isDigit (c : ascii) : bool :=
  ((48 <=? nat_of_ascii c) && (nat_of_ascii c <=? 57))%nat.
Definition isUpper (c : ascii) : bool :=
  ((65 <=? nat_of_ascii c) && (nat_of_ascii c <=? 90))%nat.
Definition isLower (c : ascii) : bool :=
  ((97 <=? nat_of_ascii c) && (nat_of_ascii c <=? 122))%nat.

(** A byte that [net/url] leaves unescaped in a host: letters, digits, the
    sub-delimiters and marks of RFC 3986, [:], [[], []], [<], [>], the
    double quote, and every byte above 127. *)
Definition hostByte (c : ascii) : bool :=
  (128 <=? nat_of_ascii c)%nat || isDigit c || isUpper c || isLower c
  || strings.ContainsRune "!$&'()*+,;=:[]<>-_.~" c
  || (nat_of_ascii c =? 34)%nat.

Fixpoint allBytes (p : ascii -> bool) (s : string) : bool :=
  match s with
  | EmptyString => true
  | String c s' => p c && allBytes p s'
  end.

(** [validOptionalPort] applied to the text from the last [:] on (or, for a
    bracketed literal, to the text after the last []]). *)
Definition validPortDigits (digits : string) : bool := allBytes isDigit digits.

Definition validHostPort (host : string) : bool :=
  if strings.HasPrefix host "[" then
    strings.ContainsRune host "]" &&
    (let after := List.last (strings.Split host "]") "" in
     match after with
     | EmptyString => true
     | String c digits => Ascii.eqb c ":" && validPortDigits digits
     end)
  else if strings.ContainsRune host ":" then
    validPortDigits (List.last (strings.Split host ":") "")
  else true.

(** [checkRegistry]: [url.Parse("//" + name)] succeeds and its [Host] is
    [name] again.  That is so exactly when [name] has only host bytes (a
    fragment, query, path, user info or escape would be split off or
    decoded, so the host would differ) and its port, if any, is numeric. *)
Definition checkRegistry (name : string) : option error :=
  if allBytes hostByte name && validHostPort name then None
  else Some (ErrBadName "registries must be valid RFC 3986 URI authorities" name).

(** [NewRegistry name] with default options. *)
Definition NewRegistry (name : string) : result Registry :=
  match checkRegistry name with
  | Some e => Err e
  | None =>
      let name := if String.eqb name "" then DefaultRegistry else name in
      (* Rewrite "docker.io" to "index.docker.io". *)
      let name := if String.eqb name defaultRegistryAlias then DefaultRegistry else name in
      Ok {| registry := name; insecure := false |}
  end.

Definition RegistryStr (r : Registry) : string := registry r.
Definition Registry_Name (r : Registry) : string := RegistryStr r.

(** *** repository.go *)

Definition hasImplicitNamespace (repo : string) (reg : Registry) : bool :=
  negb (strings.ContainsRune repo "/") && String.eqb (RegistryStr reg) DefaultRegistry.

Definition RepositoryStr (r : Repository) : string :=
  if hasImplicitNamespace (repository r) (Repository_Registry r)
  then defaultNamespace +:+ "/" +:+ repository r
  else repository r.

Definition Repository_Name (r : Repository) : string :=
  let regName := Registry_Name (Repository_Registry r) in
  if negb (String.eqb regName "") then
    regName +:+ String regRepoDelimiter (RepositoryStr r)
  else RepositoryStr r.

(** [NewRepository name] with default options. *)
Definition NewRepository (name : string) : result Repository :=
  if String.eqb name "" then
    Err (ErrBadName "a repository name must be specified" name)
  else
    let parts := strings.SplitN2 name regRepoDelimiter in
    let '(registry, repo) :=
      match parts with
      | [p0; p1] =>
          if strings.ContainsRune p0 "." || strings.ContainsRune p0 ":"
          then (p0, p1)
          else (EmptyString, name)
      | _ => (EmptyString, name)
      end in
    match checkRepository repo with
    | Some e => Err e
    | None =>
        match NewRegistry registry with
        | Err e => Err e
        | Ok reg => Ok {| Repository_Registry := reg; repository := repo |}
        end
    end.

(** *** tag.go *)

Definition TagStr (t : Tag) : string := tag t.
Definition Tag_Identifier (t : Tag) : string := TagStr t.
Definition Tag_Context (t : Tag) : Repository := Tag_Repository t.
Definition Tag_Name (t : Tag) : string :=
  Repository_Name (Tag_Repository t) +:+ String tagDelim (TagStr t).

(** [NewTag name] with default options. *)
Definition NewTag (name : string) : result Tag :=
  let parts := strings.Split name tagDelim in
  let '(base, tag) :=
    if (1 <? List.length parts)%nat
       && negb (strings.Contains (List.last parts "") regRepoDelimiter)
    then (strings.Join (List.removelast parts) tagDelim, List.last parts "")
    else (name, EmptyString) in
  match (if negb (String.eqb tag "") then checkTag tag else None) with
  | Some e => Err e
  | None =>
      let tag := if String.eqb tag "" then DefaultTag else tag in
      match NewRepository base with
      | Err e => Err e
      | Ok repo => Ok {| Tag_Repository := repo; tag := tag; Tag_original := name |}
      end
  end.

(** *** digest.go *)

Definition DigestStr (d : Digest) : string := digest d.
Definition Digest_Identifier (d : Digest) : string := DigestStr d.
Definition Digest_Context (d : Digest) : Repository := Digest_Repository d.
Definition Digest_Name (d : Digest) : string :=
  Repository_Name (Digest_Repository d) +:+ String digestDelim (DigestStr d).

(** [NewDigest name] with default options. *)
Definition NewDigest (name : string) : result Digest :=
  match strings.Split name digestDelim with
  | [base; dig] =>
      match checkDigest dig with
      | Some e => Err e
      | None =>
          let base :=
            match NewTag base with
            | Ok t => Repository_Name (Tag_Repository t)
            | Err _ => base
            end in
          match NewRepository base with
          | Err e => Err e
          | Ok repo =>
              Ok {| Digest_Repository := repo; digest := dig; Digest_original := name |}
          end
      end
  | _ => Err (ErrBadName "a digest must contain exactly one '@' separator" name)
  end.

(** *** ref.go *)

Definition Context (r : Reference) : Repository :=
  match r with
  | RefTag t => Tag_Context t
  | RefDigest d => Digest_Context d
  end.

Definition Identifier (r : Reference) : string :=
  match r with
  | RefTag t => Tag_Identifier t
  | RefDigest d => Digest_Identifier d
  end.

(** Modelled from the spec: [serialize] of section 4.1, which is the [Name]
    method of both kinds of reference in the [name] package: registry, [/],
    repository path, then [:] and the tag or [@] and the digest. *)
Definition Name (r : Reference) : string :=
  match r with
  | RefTag t => Tag_Name t
  | RefDigest d => Digest_Name d
  end.

(** Modelled from the spec: [parse] of section 4.1.  Its code is in the
    [name] package, a dependency outside the controller's file, and is
    followed here: [ParseReference s] is a tag reference if [NewTag] accepts
    [s], else a digest reference if [NewDigest] does. *)
Definition ParseReference (s : string) : result Reference :=
  match NewTag s with
  | Ok t => Ok (RefTag t)
  | Err _ =>
      match NewDigest s with
      | Ok d => Ok (RefDigest d)
      | Err _ => Err (ErrBadName "could not parse reference" s)
      end
  end.

End name.

(** ** Kubernetes objects: the fields of a workload the controller can see *)

Module metav1.
Definition NamespaceSystem : string := "kube-system".

Record ObjectMeta : Type := mkObjectMeta
  { Name : string;
    Namespace : string;
    ResourceVersion : nat;
    Generation : nat;
    Labels : list (string * string) }.

#[global] Instance ObjectMeta_eq_dec : EqDecision ObjectMeta.
Proof. solve_decision. Defined.
End metav1.

Module corev1.
Definition EventTypeWarning : string := "Warning".

Record Container : Type := mkContainer
  { Name : string;
    Image : string;
    Command : list string;
    Args : list string }.

Record PodSpec : Type := mkPodSpec
  { InitContainers : list Container;
    Containers : list Container;
    ServiceAccountName : string }.

Record PodTemplateSpec : Type := mkPodTemplateSpec
  { ObjectMeta : metav1.ObjectMeta;
    Spec : PodSpec }.

#[global] Instance Container_eq_dec : EqDecision Container.
Proof. solve_decision. Defined.
#[global] Instance PodSpec_eq_dec : EqDecision PodSpec.
Proof. solve_decision. Defined.
#[global] Instance PodTemplateSpec_eq_dec : EqDecision PodTemplateSpec.
Proof. solve_decision. Defined.
End corev1.

Module appsv1.
Record DeploymentSpec : Type := mkDeploymentSpec
  { Replicas : option nat;
    Deployment_Template : corev1.PodTemplateSpec;
    Paused : bool }.

Record Deployment : Type := mkDeployment
  { Deployment_ObjectMeta : metav1.ObjectMeta;
    Deployment_Spec : DeploymentSpec }.

Record DaemonSetSpec : Type := mkDaemonSetSpec
  { DaemonSet_Template : corev1.PodTemplateSpec;
    MinReadySeconds : nat }.

Record DaemonSet : Type := mkDaemonSet
  { DaemonSet_ObjectMeta : metav1.ObjectMeta;
    DaemonSet_Spec : DaemonSetSpec }.

#[global] Instance DeploymentSpec_eq_dec : EqDecision DeploymentSpec.
Proof. solve_decision. Defined.
#[global] Instance Deployment_eq_dec : EqDecision Deployment.
Proof. solve_decision. Defined.
#[global] Instance DaemonSetSpec_eq_dec : EqDecision DaemonSetSpec.
Proof. solve_decision. Defined.
#[global] Instance DaemonSet_eq_dec : EqDecision DaemonSet.
Proof. solve_decision. Defined.
End appsv1.

(** [types.NamespacedName]: namespace, then name. *)
Definition NamespacedName : Type := (string * string)%type.

(** [ctrl.Request] and [ctrl.Result]. *)
Record Request : Type := mkRequest { Request_NamespacedName : NamespacedName }.
Record Result : Type := mkResult { Requeue : bool; RequeueAfter : nat }.

(** ** The world outside the controller

    The collaborators of the controller (the object store behind
    [client.Client], the image transfer [crane.Copy] and the event sink
    [record.EventRecorder]) are dependencies whose code is not part of the
    controller's file.  They are modelled after their interfaces. *)

(** Modelled from the spec: a record of the event sink of section 6,
    [record(objectIdentity, severity, reason, message)]. *)
Record Event : Type := mkEvent
  { involvedKind : string;
    involvedObject : NamespacedName;
    eventtype : string;
    reason : string;
    message : error }.          (* the error whose text is the message *)

(** Modelled from the spec: the object store of section 6, which keeps each
    workload under its identity. *)
Record Store : Type := mkStore
  { deployments : gmap NamespacedName appsv1.Deployment;
    daemonSets : gmap NamespacedName appsv1.DaemonSet }.

(** A patch request as it leaves the controller: the kind, the object's
    identity, and the version the patch is conditioned on. *)
Record PatchCall : Type := mkPatchCall
  { patchKind : string;
    patchObject : NamespacedName;
    patchVersion : nat }.

Record World : Type := mkWorld
  { store : Store;
    transfers : list (string * string);   (* crane.Copy calls, oldest first *)
    events : list Event;                  (* recorded events, oldest first *)
    patches : list PatchCall }.           (* issued patches, oldest first *)

(** What the collaborators answer.  The outcome of a transfer may depend on
    the transfers made before it; a read may fail for a reason other than
    absence; other writers may change the store between the read and the
    commit of an attempt, which is where the attempt can observe them. *)
Record Collaborators : Type := mkCollaborators
  { copyOutcome : list (string * string) -> string -> string -> option error;
    readFault : NamespacedName -> option error;
    otherWriters : Store -> Store }.

(** Modelled from the spec: the image transfer collaborator of section 6,
    [copy(sourceRef, destRef) -> Ok | TransferError], which is [crane.Copy
    src dst] in the code. *)
Definition crane_Copy (env : Collaborators) (src dst : string) (w : World)
  : option error * World :=
  (copyOutcome env (transfers w) src dst,
   {| store := store w; transfers := transfers w ++ [(src, dst)];
      events := events w; patches := patches w |}).

(** Modelled from the spec: the event sink of section 6, which is
    [Recorder.Event object eventtype reason message] in the code. *)
Definition Recorder_Event (kind : string) (obj : NamespacedName)
    (eventtype reason : string) (message : error) (w : World) : World :=
  {| store := store w; transfers := transfers w;
     events := events w ++ [mkEvent kind obj eventtype reason message];
     patches := patches w |}.

(** [apierrors.IsNotFound]. *)
Fixpoint IsNotFound (err : error) : bool :=
  match err with
  | StatusNotFound => true
  | Errorf _ _ wrapped => IsNotFound wrapped
  | _ => false
  end.

Definition keyOf (m : metav1.ObjectMeta) : NamespacedName :=
  (metav1.Namespace m, metav1.Name m).

Definition bumpVersion (m : metav1.ObjectMeta) : metav1.ObjectMeta :=
  {| metav1.Name := metav1.Name m; metav1.Namespace := metav1.Namespace m;
     metav1.ResourceVersion := S (metav1.ResourceVersion m);
     metav1.Generation := metav1.Generation m; metav1.Labels := metav1.Labels m |}.

(** Modelled from the spec: [get(identity) -> Workload | NotFound] of the
    object store of section 6, which is [c.Get ctx key deployment] in the
    code. *)
Definition Get_Deployment (env : Collaborators) (key : NamespacedName) (w : World)
  : result appsv1.Deployment :=
  match readFault env key with
  | Some e => Err e
  | None =>
      match deployments (store w) !! key with
      | Some d => Ok d
      | None => Err StatusNotFound
      end
  end.

(** Modelled from the spec: the same read for a daemon set. *)
Definition Get_DaemonSet (env : Collaborators) (key : NamespacedName) (w : World)
  : result appsv1.DaemonSet :=
  match readFault env key with
  | Some e => Err e
  | None =>
      match daemonSets (store w) !! key with
      | Some d => Ok d
      | None => Err StatusNotFound
      end
  end.

(** Modelled from the spec: [patch(identity, update, precondition =
    observed_version) -> Ok | VersionConflict] of the object store of section
    6, which is [c.Patch ctx obj (client.StrategicMergeFrom before
    client.MergeFromWithOptimisticLock{})] in the code.  The patch is
    applied only when the stored object still has the version that was read,
    and is a conflict otherwise; the store gives the patched object a new
    version. *)
Definition Patch_Deployment (env : Collaborators)
    (obj before : appsv1.Deployment) (w : World) : option error * World :=
  let key := keyOf (appsv1.Deployment_ObjectMeta obj) in
  let version := metav1.ResourceVersion (appsv1.Deployment_ObjectMeta before) in
  let s := otherWriters env (store w) in
  let issued := patches w ++ [mkPatchCall "Deployment" key version] in
  match deployments s !! key with
  | None =>
      (Some StatusNotFound,
       {| store := s; transfers := transfers w; events := events w; patches := issued |})
  | Some cur =>
      if decide (metav1.ResourceVersion (appsv1.Deployment_ObjectMeta cur) = version) then
        let stored :=
          {| appsv1.Deployment_ObjectMeta := bumpVersion (appsv1.Deployment_ObjectMeta obj);
             appsv1.Deployment_Spec := appsv1.Deployment_Spec obj |} in
        (None,
         {| store := {| deployments := <[key := stored]> (deployments s);
                        daemonSets := daemonSets s |};
            transfers := transfers w; events := events w; patches := issued |})
      else
        (Some StatusConflict,
         {| store := s; transfers := transfers w; events := events w; patches := issued |})
  end.

(** Modelled from the spec: the same patch for a daemon set. *)
Definition Patch_DaemonSet (env : Collaborators)
    (obj before : appsv1.DaemonSet) (w : World) : option error * World :=
  let key := keyOf (appsv1.DaemonSet_ObjectMeta obj) in
  let version := metav1.ResourceVersion (appsv1.DaemonSet_ObjectMeta before) in
  let s := otherWriters env (store w) in
  let issued := patches w ++ [mkPatchCall "DaemonSet" key version] in
  match daemonSets s !! key with
  | None =>
      (Some StatusNotFound,
       {| store := s; transfers := transfers w; events := events w; patches := issued |})
  | Some cur =>
      if decide (metav1.ResourceVersion (appsv1.DaemonSet_ObjectMeta cur) = version) then
        let stored :=
          {| appsv1.DaemonSet_ObjectMeta := bumpVersion (appsv1.DaemonSet_ObjectMeta obj);
             appsv1.DaemonSet_Spec := appsv1.DaemonSet_Spec obj |} in
        (None,
         {| store := {| deployments := deployments s;
                        daemonSets := <[key := stored]> (daemonSets s) |};
            transfers := transfers w; events := events w; patches := issued |})
      else
        (Some StatusConflict,
         {| store := s; transfers := transfers w; events := events w; patches := issued |})
  end.

(** ** controllers/image_clone_controller.go *)

Definition ImageCloneControllerName : string := "image-clone".

(** [ImageCloneController]; its embedded client and its recorder act on the
    [World]. *)
Record ImageCloneController : Type := mkImageCloneController
  { BackupRegistry : name.Registry;
    PodNamespace : string }.

(** [RegistryNamespace]: the namespace the local registry runs in. *)
Definition RegistryNamespace : string := "registry".

(** The package variable [ignoredNamespaces] in its initial state. *)
Definition ignoredNamespaces : gset string :=
  {[ metav1.NamespaceSystem; RegistryNamespace; "local-path-storage" ]}.

(** [SetupWithManager], as far as the package variable goes: it takes the
    current set and gives the set it leaves behind.  Registering the two
    reconcilers with the manager is outside this model. *)
Definition SetupWithManager (c : ImageCloneController) (ignored : gset string)
  : gset string :=
  if negb (String.eqb (PodNamespace c) "") then
    (* ignore the namespace that this controller is running in *)
    {[ PodNamespace c ]} ∪ ignored
  else ignored.

(** [namespacePredicate]: ignores objects in system namespaces. *)
Definition namespacePredicate (ignored : gset string) (obj : metav1.ObjectMeta) : bool :=
  negb (bool_decide (metav1.Namespace obj ∈ ignored)).

(** [registryReplacer] replaces . and : with _ in registry names. *)
Definition registryReplacer : list (ascii * ascii) :=
  [("."%char, "_"%char); (":"%char, "_"%char)].

(** [toDestinationImage] rewrites source image references to corresponding
    tags in the backup registry. *)
Definition toDestinationImage (srcImg : name.Reference) (dstRegistry : name.Registry)
  : result name.Tag :=
  let newRepository :=
    strings.Replace registryReplacer
      (name.RegistryStr (name.Repository_Registry (name.Context srcImg)))
    +:+ "/" +:+ name.RepositoryStr (name.Context srcImg) in
  let newTag := name.Identifier srcImg in
  let newTag :=
    match srcImg with
    | name.RefDigest digest =>
        (* if image is identified via digest instead of tag, rewrite digest to tag *)
        strings.ReplaceAll (name.DigestStr digest) ":" "_"
    | name.RefTag _ => newTag
    end in
  name.NewTag (name.RegistryStr dstRegistry +:+ "/" +:+ newRepository +:+ ":" +:+ newTag).

(** [template.Spec.Containers[i].Image = image]. *)
Definition setImage (image : string) (container : corev1.Container) : corev1.Container :=
  {| corev1.Name := corev1.Name container; corev1.Image := image;
     corev1.Command := corev1.Command container; corev1.Args := corev1.Args container |}.

(** The loop only writes at the index it is visiting, which is in range;
    [alter] would leave the list alone at any other index. *)
Definition setContainerImage (i : nat) (image : string)
    (template : corev1.PodTemplateSpec) : corev1.PodTemplateSpec :=
  {| corev1.ObjectMeta := corev1.ObjectMeta template;
     corev1.Spec :=
       {| corev1.InitContainers := corev1.InitContainers (corev1.Spec template);
          corev1.Containers :=
            alter (setImage image) i (corev1.Containers (corev1.Spec template));
          corev1.ServiceAccountName := corev1.ServiceAccountName (corev1.Spec template) |} |}.

(** The loop of [reconcilePodTemplate] from index [i] on.  [range] reads
    element [i] when iteration [i] starts, and nothing before that writes
    to it, so the elements still to visit are those of the slice as it was
    when the loop began.  The template is updated in place, so it is returned
    also when the loop stops with an error. *)
Fixpoint rangeContainers (c : ImageCloneController) (env : Collaborators)
    (i : nat) (containers : list corev1.Container)
    (template : corev1.PodTemplateSpec) (w : World)
  : option error * corev1.PodTemplateSpec * World :=
  match containers with
  | [] => (None, template, w)
  | container :: rest =>
      match name.ParseReference (corev1.Image container) with
      | Err err =>
          (Some (Errorf "failed parsing image %q: %w" [corev1.Image container] err),
           template, w)
      | Ok srcImg =>
          if decide (name.Repository_Registry (name.Context srcImg) = BackupRegistry c)
          then rangeContainers c env (S i) rest template w
          else
            match toDestinationImage srcImg (BackupRegistry c) with
            | Err err =>
                (Some (Errorf "failed rewriting image %q: %w" [name.Name srcImg] err),
                 template, w)
            | Ok dstImg =>
                match crane_Copy env (name.Name srcImg) (name.Tag_Name dstImg) w with
                | (Some err, w1) =>
                    (Some (Errorf "error copying image %q to %q: %w"
                             [name.Name srcImg; name.Tag_Name dstImg] err),
                     template, w1)
                | (None, w1) =>
                    rangeContainers c env (S i) rest
                      (setContainerImage i (name.Tag_Name dstImg) template) w1
                end
            end
      end
  end.

(** [reconcilePodTemplate] copies all images in the given PodTemplate to the
    backup registry if they don't reference the backup registry already, and
    updates the PodTemplate to reference the copied images. *)
Definition reconcilePodTemplate (c : ImageCloneController) (env : Collaborators)
    (template : corev1.PodTemplateSpec) (w : World)
  : option error * corev1.PodTemplateSpec * World :=
  rangeContainers c env 0 (corev1.Containers (corev1.Spec template)) template w.

Definition setDeploymentTemplate (template : corev1.PodTemplateSpec)
    (d : appsv1.Deployment) : appsv1.Deployment :=
  {| appsv1.Deployment_ObjectMeta := appsv1.Deployment_ObjectMeta d;
     appsv1.Deployment_Spec :=
       {| appsv1.Replicas := appsv1.Replicas (appsv1.Deployment_Spec d);
          appsv1.Deployment_Template := template;
          appsv1.Paused := appsv1.Paused (appsv1.Deployment_Spec d) |} |}.

Definition setDaemonSetTemplate (template : corev1.PodTemplateSpec)
    (d : appsv1.DaemonSet) : appsv1.DaemonSet :=
  {| appsv1.DaemonSet_ObjectMeta := appsv1.DaemonSet_ObjectMeta d;
     appsv1.DaemonSet_Spec :=
       {| appsv1.DaemonSet_Template := template;
          appsv1.MinReadySeconds := appsv1.MinReadySeconds (appsv1.DaemonSet_Spec d) |} |}.

(** [ReconcileDeployment] implements the reconciliation loop for Deployment
    objects. *)
Definition ReconcileDeployment (c : ImageCloneController) (env : Collaborators)
    (req : Request) (w : World) : (Result * option error) * World :=
  match Get_Deployment env (Request_NamespacedName req) w with
  | Err err =>
      if IsNotFound err then
        ((mkResult false 0, None), w)
      else
        ((mkResult false 0, Some (Errorf "error reading object: %w" [] err)), w)
  | Ok fetched =>
      let before := fetched in      (* DeepCopy *)
      match reconcilePodTemplate c env
              (appsv1.Deployment_Template (appsv1.Deployment_Spec fetched)) w with
      | (Some err, _, w1) =>
          ((mkResult false 0, Some err),
           Recorder_Event "Deployment" (keyOf (appsv1.Deployment_ObjectMeta fetched))
             corev1.EventTypeWarning "FailedCopyingImages" err w1)
      | (None, template, w1) =>
          let deployment := setDeploymentTemplate template fetched in
          (* update deployment if reconciliation changed any images *)
          if negb (bool_decide (before = deployment)) then
            match Patch_Deployment env deployment before w1 with
            | (perr, w2) => ((mkResult false 0, perr), w2)
            end
          else ((mkResult false 0, None), w1)
      end
  end.

(** [ReconcileDaemonSet] implements the reconciliation loop for DaemonSet
    objects. *)
Definition ReconcileDaemonSet (c : ImageCloneController) (env : Collaborators)
    (req : Request) (w : World) : (Result * option error) * World :=
  match Get_DaemonSet env (Request_NamespacedName req) w with
  | Err err =>
      if IsNotFound err then
        ((mkResult false 0, None), w)
      else
        ((mkResult false 0, Some (Errorf "error reading object: %w" [] err)), w)
  | Ok fetched =>
      let before := fetched in      (* DeepCopy *)
      match reconcilePodTemplate c env
              (appsv1.DaemonSet_Template (appsv1.DaemonSet_Spec fetched)) w with
      | (Some err, _, w1) =>
          ((mkResult false 0, Some err),
           Recorder_Event "DaemonSet" (keyOf (appsv1.DaemonSet_ObjectMeta fetched))
             corev1.EventTypeWarning "FailedCopyingImages" err w1)
      | (None, template, w1) =>
          let daemonSet := setDaemonSetTemplate template fetched in
          (* update daemonSet if reconciliation changed any images *)
          if negb (bool_decide (before = daemonSet)) then
            match Patch_DaemonSet env daemonSet before w1 with
            | (perr, w2) => ((mkResult false 0, perr), w2)
            end
          else ((mkResult false 0, None), w1)
      end
  end.

(** ** Vocabulary of the properties *)

(** Two containers that differ at most in their image. *)
Definition sameButImage (a b : corev1.Container) : Prop :=
  corev1.Name b = corev1.Name a
  /\ corev1.Command b = corev1.Command a
  /\ corev1.Args b = corev1.Args a.

(** Two pod templates that differ at most in the images of their containers:
    as many containers, in the same order, under the same names. *)
Definition sameButImages (t t' : corev1.PodTemplateSpec) : Prop :=
  corev1.ObjectMeta t' = corev1.ObjectMeta t
  /\ corev1.InitContainers (corev1.Spec t') = corev1.InitContainers (corev1.Spec t)
  /\ corev1.ServiceAccountName (corev1.Spec t') = corev1.ServiceAccountName (corev1.Spec t)
  /\ Forall2 sameButImage (corev1.Containers (corev1.Spec t))
                          (corev1.Containers (corev1.Spec t')).

(** The template with another list of containers. *)
Definition withContainers (cs : list corev1.Container) (t : corev1.PodTemplateSpec)
  : corev1.PodTemplateSpec :=
  {| corev1.ObjectMeta := corev1.ObjectMeta t;
     corev1.Spec :=
       {| corev1.InitContainers := corev1.InitContainers (corev1.Spec t);
          corev1.Containers := cs;
          corev1.ServiceAccountName := corev1.ServiceAccountName (corev1.Spec t) |} |}.

(** A container whose image parses to a reference in the backup registry,
    as the loop tests it. *)
Definition alreadyMirrored (c : ImageCloneController) (container : corev1.Container) : Prop :=
  exists srcImg,
    name.ParseReference (corev1.Image container) = Ok srcImg
    /\ name.Repository_Registry (name.Context srcImg) = BackupRegistry c.

(** A transfer the loop makes for a container: from the printed source
    reference to the printed destination, for a source outside the backup
    registry. *)
Definition transferFor (c : ImageCloneController) (container : corev1.Container)
    (p : string * string) : Prop :=
  exists srcImg dstImg,
    name.ParseReference (corev1.Image container) = Ok srcImg
    /\ name.Repository_Registry (name.Context srcImg) <> BackupRegistry c
    /\ toDestinationImage srcImg (BackupRegistry c) = Ok dstImg
    /\ p = (name.Name srcImg, name.Tag_Name dstImg).

(** A registry name that [NewRepository] tells apart from a path segment. *)
Definition hasDotOrColon (s : string) : bool :=
  strings.ContainsRune s "." || strings.ContainsRune s ":".

(** What every registry inside a parsed reference satisfies. *)
Definition wfRegistry (r : name.Registry) : Prop :=
  name.insecure r = false
  /\ name.checkRegistry (name.registry r) = None
  /\ hasDotOrColon (name.registry r) = true
  /\ name.registry r <> name.defaultRegistryAlias.

(** What every repository inside a parsed reference satisfies. *)
Definition wfRepository (r : name.Repository) : Prop :=
  wfRegistry (name.Repository_Registry r)
  /\ name.checkRepository (name.repository r) = None.

(** What every parsed reference satisfies. *)
Definition wfReference (r : name.Reference) : Prop :=
  wfRepository (name.Context r)
  /\ match r with
     | name.RefTag t => name.checkTag (name.tag t) = None
     | name.RefDigest d => name.checkDigest (name.digest d) = None
     end.

(** The destination naming scheme in the words of its description: the
    sanitized registry, a slash and the unchanged repository path; the tag
    verbatim, or the digest with its [:] replaced by [_]. *)
Definition sanitize (authority : string) : string :=
  strings.Replace [("."%char, "_"%char); (":"%char, "_"%char)] authority.

Definition destinationRepository (src : name.Reference) : string :=
  sanitize (name.RegistryStr (name.Repository_Registry (name.Context src)))
  +:+ "/" +:+ name.RepositoryStr (name.Context src).

Definition destinationIdentifier (src : name.Reference) : string :=
  match src with
  | name.RefTag t => name.TagStr t
  | name.RefDigest d => strings.ReplaceAll (name.DigestStr d) ":" "_"
  end.

(** Modelled from the spec: the data model of section 3 is not a type of
    the code.  An image reference is a registry authority, a repository path
    and an identifier that is either a tag or a digest; [registry],
    [repository] and [identifier] read them off a parsed reference, and two
    references are the same image reference when these three agree. *)
Inductive Identifier : Type :=
| ByTag (t : string)
| ByDigest (d : string).

Record ImageReference : Type := mkImageReference
  { ref_registry : string;
    ref_repository : string;
    ref_identifier : Identifier }.

Definition imageReference (r : name.Reference) : ImageReference :=
  {| ref_registry := name.RegistryStr (name.Repository_Registry (name.Context r));
     ref_repository := name.RepositoryStr (name.Context r);
     ref_identifier :=
       match r with
       | name.RefTag t => ByTag (name.TagStr t)
       | name.RefDigest d => ByDigest (name.DigestStr d)
       end |}.

(** The reference that parsing the printed form of [r] gives: the repository
    path is spelled out and the original text is the printed form. *)
Definition canonicalRepository (r : name.Repository) : name.Repository :=
  {| name.Repository_Registry := name.Repository_Registry r;
     name.repository := name.RepositoryStr r |}.

Definition canonical (r : name.Reference) : name.Reference :=
  match r with
  | name.RefTag t =>
      name.RefTag {| name.Tag_Repository := canonicalRepository (name.Tag_Repository t);
                     name.tag := name.tag t;
                     name.Tag_original := name.Tag_Name t |}
  | name.RefDigest d =>
      name.RefDigest {| name.Digest_Repository := canonicalRepository (name.Digest_Repository d);
                        name.digest := name.digest d;
                        name.Digest_original := name.Digest_Name d |}
  end.

(** What the loop does to one container when nothing fails: a container
    in the backup registry stays, any other gets the printed destination as
    image. *)
Definition rewriteContainer (c : ImageCloneController) (container : corev1.Container)
  : corev1.Container :=
  match name.ParseReference (corev1.Image container) with
  | Ok srcImg =>
      if decide (name.Repository_Registry (name.Context srcImg) = BackupRegistry c)
      then container
      else match toDestinationImage srcImg (BackupRegistry c) with
           | Ok dstImg => setImage (name.Tag_Name dstImg) container
           | Err _ => container
           end
  | Err _ => container
  end.

(** The transfer the loop asks for on one container: none for a container
    in the backup registry, else from the printed source to the printed
    destination. *)
Definition transferOf (c : ImageCloneController) (container : corev1.Container)
  : list (string * string) :=
  match name.ParseReference (corev1.Image container) with
  | Ok srcImg =>
      if decide (name.Repository_Registry (name.Context srcImg) = BackupRegistry c)
      then []
      else match toDestinationImage srcImg (BackupRegistry c) with
           | Ok dstImg => [(name.Name srcImg, name.Tag_Name dstImg)]
           | Err _ => []
           end
  | Err _ => []
  end.

(** The containers that the loop visits without an error, given the
    transfers made so far: each is in the backup registry already, or its
    transfer is answered without an error and joins the transfers made. *)
Fixpoint stepsSucceed (c : ImageCloneController) (env : Collaborators)
    (made : list (string * string)) (cs : list corev1.Container) : Prop :=
  match cs with
  | [] => True
  | container :: rest =>
      (alreadyMirrored c container /\ stepsSucceed c env made rest)
      \/ (exists src dst,
            transferFor c container (src, dst)
            /\ copyOutcome env made src dst = None
            /\ stepsSucceed c env (made ++ [(src, dst)]) rest)
  end.

(** How the loop fails at a container, given the transfers made so far,
    with the error it returns: the image does not parse, or the destination
    cannot be named, or the transfer is answered with an error, which the
    returned error wraps. *)
Definition failsAt (c : ImageCloneController) (env : Collaborators)
    (made : list (string * string)) (container : corev1.Container)
    (err : error) : Prop :=
  (exists cause,
      name.ParseReference (corev1.Image container) = Err cause
      /\ err = Errorf "failed parsing image %q: %w" [corev1.Image container] cause)
  \/ (exists srcImg cause,
        name.ParseReference (corev1.Image container) = Ok srcImg
        /\ name.Repository_Registry (name.Context srcImg) <> BackupRegistry c
        /\ toDestinationImage srcImg (BackupRegistry c) = Err cause
        /\ err = Errorf "failed rewriting image %q: %w" [name.Name srcImg] cause)
  \/ (exists src dst cause,
        transferFor c container (src, dst)
        /\ copyOutcome env made src dst = Some cause
        /\ err = Errorf "error copying image %q to %q: %w" [src; dst] cause).

(** ** Worked scenarios *)

(** The controller of the sample deployment: backup registry
    [10.96.0.11:5001], running in [image-clone-system]. *)
Definition sampleController : ImageCloneController :=
  {| BackupRegistry := {| name.insecure := false; name.registry := "10.96.0.11:5001" |};
     PodNamespace := "image-clone-system" |}.

(** Collaborators that never fail and a store nobody else writes to. *)
Definition calm : Collaborators :=
  {| copyOutcome := fun _ _ _ => None;
     readFault := fun _ => None;
     otherWriters := fun s => s |}.

(** As [calm], but every transfer of the redis image fails. *)
Definition redisUnavailable : Collaborators :=
  {| copyOutcome := fun _ src _ =>
       if String.eqb src "index.docker.io/library/redis:latest"
       then Some (ErrOther "unexpected status code 503") else None;
     readFault := fun _ => None;
     otherWriters := fun s => s |}.

Definition sampleMeta (n : string) : metav1.ObjectMeta :=
  {| metav1.Name := n; metav1.Namespace := "default";
     metav1.ResourceVersion := 7; metav1.Generation := 1;
     metav1.Labels := [("app", n)] |}.

Definition sampleContainer (n image : string) : corev1.Container :=
  {| corev1.Name := n; corev1.Image := image;
     corev1.Command := []; corev1.Args := ["--verbose"] |}.

Definition sampleTemplate (cs : list corev1.Container) : corev1.PodTemplateSpec :=
  {| corev1.ObjectMeta := sampleMeta "web";
     corev1.Spec :=
       {| corev1.InitContainers := [sampleContainer "init" "busybox"];
          corev1.Containers := cs;
          corev1.ServiceAccountName := "default" |} |}.

Definition sampleDeployment (cs : list corev1.Container) : appsv1.Deployment :=
  {| appsv1.Deployment_ObjectMeta := sampleMeta "web";
     appsv1.Deployment_Spec :=
       {| appsv1.Replicas := Some 2;
          appsv1.Deployment_Template := sampleTemplate cs;
          appsv1.Paused := false |} |}.

Definition sampleDaemonSet (cs : list corev1.Container) : appsv1.DaemonSet :=
  {| appsv1.DaemonSet_ObjectMeta := sampleMeta "web";
     appsv1.DaemonSet_Spec :=
       {| appsv1.DaemonSet_Template := sampleTemplate cs;
          appsv1.MinReadySeconds := 0 |} |}.

Definition webRequest : Request := mkRequest ("default", "web").

(** A world that stores one deployment and one daemon set named [web]. *)
Definition worldWith (cs : list corev1.Container) : World :=
  {| store := {| deployments := {[ ("default", "web") := sampleDeployment cs ]};
                 daemonSets := {[ ("default", "web") := sampleDaemonSet cs ]} |};
     transfers := []; events := []; patches := [] |}.

(** A world that stores nothing. *)
Definition emptyWorld : World :=
  {| store := {| deployments := ∅; daemonSets := ∅ |};
     transfers := []; events := []; patches := [] |}.

(** Containers [A] (needs mirroring) and [B] (its transfer fails under
    [redisUnavailable]), then a third one. *)
Definition nginxRedis : list corev1.Container :=
  [sampleContainer "a" "nginx"; sampleContainer "b" "redis";
   sampleContainer "c" "grafana/grafana:main"].

(** A container that already references the backup registry. *)
Definition mirroredNginx : corev1.Container :=
  sampleContainer "a" "10.96.0.11:5001/index_docker_io/library/nginx:latest".

(** References used in the counterexamples. *)
Definition dockerHub : name.Registry :=
  {| name.insecure := false; name.registry := "index.docker.io" |}.

Definition nginxLatest : name.Reference :=
  name.RefTag
    {| name.Tag_Repository :=
         {| name.Repository_Registry := dockerHub; name.repository := "nginx" |};
       name.tag := "latest"; name.Tag_original := "nginx" |}.

Definition upperCaseImage : string := "GHCR.IO/timebertt/speedtest-exporter:v0.1.0".

Definition upperCaseRef : name.Reference :=
  name.RefTag
    {| name.Tag_Repository :=
         {| name.Repository_Registry :=
              {| name.insecure := false; name.registry := "GHCR.IO" |};
            name.repository := "timebertt/speedtest-exporter" |};
       name.tag := "v0.1.0"; name.Tag_original := upperCaseImage |}.

(** A Docker Hub image with a repository path of 242 characters. *)
Definition longPathImage : string := "a/" +:+ strings.Repeat "b" 240.

Definition longPathRef : name.Reference :=
  name.RefTag
    {| name.Tag_Repository :=
         {| name.Repository_Registry := dockerHub; name.repository := longPathImage |};
       name.tag := "latest"; name.Tag_original := longPathImage |}.

(** A Docker Hub library image with a name of 250 characters. *)
Definition longLibraryImage : string := strings.Repeat "a" 250.

Definition longLibraryRef : name.Reference :=
  name.RefTag
    {| name.Tag_Repository :=
         {| name.Repository_Registry := dockerHub; name.repository := longLibraryImage |};
       name.tag := "latest"; name.Tag_original := longLibraryImage |}.

(** A backup registry whose name has neither a [.] nor a [:]. *)
Definition localhostRegistry : name.Registry :=
  {| name.insecure := false; name.registry := "localhost" |}.

Definition localhostController : ImageCloneController :=
  {| BackupRegistry := localhostRegistry; PodNamespace := "image-clone-system" |}.

(** Collaborators whose store cannot be read. *)
Definition storeDown : Collaborators :=
  {| copyOutcome := fun _ _ _ => None;
     readFault := fun _ => Some (ErrOther "connection refused");
     otherWriters := fun s => s |}.

(** Collaborators with another writer that touches the deployment [web]
    between the read and the commit, so that it gets a new version. *)
Definition busy : Collaborators :=
  {| copyOutcome := fun _ _ _ => None;
     readFault := fun _ => None;
     otherWriters := fun s =>
       {| deployments :=
            alter (fun d => {| appsv1.Deployment_ObjectMeta :=
                                 bumpVersion (appsv1.Deployment_ObjectMeta d);
                               appsv1.Deployment_Spec := appsv1.Deployment_Spec d |})
              ("default", "web") (deployments s);
          daemonSets := daemonSets s |} |}.

(** A digest reference for [nginx], and the tag image that shares its
    destination. *)
Definition nginxDigest : string :=
  "sha256:33cef0ff00000000000000000000000000000000000000000000000000000000".

Definition nginxByDigest : name.Digest :=
  {| name.Digest_Repository :=
       {| name.Repository_Registry := dockerHub; name.repository := "library/nginx" |};
     name.digest := nginxDigest;
     name.Digest_original := "nginx@" +:+ nginxDigest |}.

(** * Properties *)

(** ** The loop over the containers *)

(** What one failed or finished run of the loop leaves of the world: the
    store, the events and the issued patches are as before, and the transfer
    log has only grown. *)
Lemma rangeContainers_world c env cs : forall i template w r template' w',
  rangeContainers c env i cs template w = (r, template', w') ->
  store w' = store w /\ events w' = events w /\ patches w' = patches w
  /\ exists ts, transfers w' = transfers w ++ ts.
Proof.
  induction cs as [|container rest IH]; intros i template w r template' w' Hrun;
    simpl in Hrun.
  - inversion Hrun; subst. repeat split; trivial. exists []. by rewrite app_nil_r.
  - destruct (name.ParseReference (corev1.Image container)) as [srcImg|perr].
    2:{ inversion Hrun; subst. repeat split; trivial. exists []. by rewrite app_nil_r. }
    destruct (decide _) as [Hsame|Hdiff]; [by eapply IH|].
    destruct (toDestinationImage srcImg (BackupRegistry c)) as [dstImg|derr].
    2:{ inversion Hrun; subst. repeat split; trivial. exists []. by rewrite app_nil_r. }
    unfold crane_Copy in Hrun.
    destruct (copyOutcome env (transfers w) _ _) as [cerr|].
    + inversion Hrun; subst; simpl. repeat split; trivial. by eexists.
    + apply IH in Hrun as (Hs & He & Hp & ts & Ht); simpl in *.
      repeat split; trivial. eexists. rewrite Ht, <- app_assoc. reflexivity.
Qed.

Lemma sameButImage_refl a : sameButImage a a.
Proof. by repeat split. Qed.

Lemma sameButImage_trans a b d : sameButImage a b -> sameButImage b d -> sameButImage a d.
Proof. unfold sameButImage. intros (?&?&?) (?&?&?). repeat split; congruence. Qed.

Lemma sameButImage_alter image (l : list corev1.Container) : forall i,
  Forall2 sameButImage l (alter (setImage image) i l).
Proof.
  induction l as [|a l IH]; intros [|i]; simpl; constructor;
    try apply sameButImage_refl; try apply IH.
  - by repeat split.
  - clear. induction l; constructor; auto using sameButImage_refl.
Qed.

Lemma sameButImages_refl t : sameButImages t t.
Proof.
  repeat split. generalize (corev1.Containers (corev1.Spec t)).
  induction l; constructor; auto using sameButImage_refl.
Qed.

Lemma sameButImages_trans t1 t2 t3 :
  sameButImages t1 t2 -> sameButImages t2 t3 -> sameButImages t1 t3.
Proof.
  intros (Hm & Hi & Hs & Hc) (Hm' & Hi' & Hs' & Hc').
  repeat split; try congruence.
  revert Hc Hc'. generalize (corev1.Containers (corev1.Spec t1))
    (corev1.Containers (corev1.Spec t2)) (corev1.Containers (corev1.Spec t3)).
  intros l1 l2 l3 H12. revert l3.
  induction H12; intros l3 H23; inversion H23; subst; constructor;
    eauto using sameButImage_trans.
Qed.

Lemma setContainerImage_frame i image t : sameButImages t (setContainerImage i image t).
Proof. repeat split. apply sameButImage_alter. Qed.

(** The loop changes nothing of the template but images. *)
Lemma rangeContainers_template c env cs : forall i template w r template' w',
  rangeContainers c env i cs template w = (r, template', w') ->
  sameButImages template template'.
Proof.
  induction cs as [|container rest IH]; intros i template w r template' w' Hrun;
    simpl in Hrun.
  - inversion Hrun; subst. apply sameButImages_refl.
  - destruct (name.ParseReference (corev1.Image container)) as [srcImg|perr].
    2:{ inversion Hrun; subst. apply sameButImages_refl. }
    destruct (decide _) as [Hsame|Hdiff]; [by eapply IH|].
    destruct (toDestinationImage srcImg (BackupRegistry c)) as [dstImg|derr].
    2:{ inversion Hrun; subst. apply sameButImages_refl. }
    destruct (copyOutcome env _ _ _) as [cerr|].
    + inversion Hrun; subst. apply sameButImages_refl.
    + eapply sameButImages_trans; [apply setContainerImage_frame | by eapply IH].
Qed.

(** The loop from index [i] on leaves the containers before [i] and those
    after the ones it visits as they are. *)
Lemma rangeContainers_outside c env cs : forall i template w r template' w' j,
  rangeContainers c env i cs template w = (r, template', w') ->
  (j < i \/ i + length cs <= j)%nat ->
  corev1.Containers (corev1.Spec template') !! j
  = corev1.Containers (corev1.Spec template) !! j.
Proof.
  induction cs as [|container rest IH]; intros i template w r template' w' j Hrun Hj;
    simpl in Hrun.
  - by inversion Hrun; subst.
  - destruct (name.ParseReference (corev1.Image container)) as [srcImg|perr];
      [|by inversion Hrun; subst].
    destruct (decide _) as [Hsame|Hdiff].
    { eapply IH; [exact Hrun|]. simpl in Hj. lia. }
    destruct (toDestinationImage srcImg (BackupRegistry c)) as [dstImg|derr];
      [|by inversion Hrun; subst].
    destruct (copyOutcome env _ _ _) as [cerr|]; [by inversion Hrun; subst|].
    erewrite IH; [|exact Hrun|simpl in Hj; lia].
    simpl. apply list_lookup_alter_ne. simpl in Hj. lia.
Qed.

(** A run that fails stopped at one container: the containers before it
    were visited without error, and whatever follows it (and whatever the
    template holds) the error and the world are the same. *)
Lemma rangeContainers_failure c env cs : forall i template w err template1 w1,
  rangeContainers c env i cs template w = (Some err, template1, w1) ->
  exists pre failing post w0,
    cs = pre ++ failing :: post
    /\ rangeContainers c env i pre template w = (None, template1, w0)
    /\ forall post' i' t', exists t'',
         rangeContainers c env i' (pre ++ failing :: post') t' w = (Some err, t'', w1).
Proof.
  induction cs as [|container rest IH]; intros i template w err template1 w1 Hrun;
    simpl in Hrun; [discriminate|].
  destruct (name.ParseReference (corev1.Image container)) as [srcImg|perr] eqn:Hparse.
  2:{ inversion Hrun; subst. exists [], container, rest, w1. repeat split; trivial.
      intros. simpl. rewrite Hparse. by eexists. }
  destruct (decide _) as [Hsame|Hdiff].
  { apply IH in Hrun as (pre & failing & post & w0 & -> & Hpre & Hany).
    exists (container :: pre), failing, post, w0. repeat split; trivial.
    - simpl. rewrite Hparse. by rewrite decide_True.
    - intros. simpl. rewrite Hparse. rewrite decide_True by done. apply Hany. }
  destruct (toDestinationImage srcImg (BackupRegistry c)) as [dstImg|derr] eqn:Hdst.
  2:{ inversion Hrun; subst. exists [], container, rest, w1. repeat split; trivial.
      intros. simpl. rewrite Hparse. rewrite decide_False by done. rewrite Hdst.
      by eexists. }
  destruct (copyOutcome env _ _ _) as [cerr|] eqn:Hcopy.
  - inversion Hrun; subst. exists [], container, rest, w. repeat split; trivial.
    intros. simpl. rewrite Hparse. rewrite decide_False by done. rewrite Hdst, Hcopy.
    by eexists.
  - apply IH in Hrun as (pre & failing & post & w0 & -> & Hpre & Hany).
    exists (container :: pre), failing, post, w0. repeat split; trivial.
    + simpl. rewrite Hparse. rewrite decide_False by done. by rewrite Hdst, Hcopy.
    + intros. simpl. rewrite Hparse. rewrite decide_False by done. rewrite Hdst, Hcopy.
      apply Hany.
Qed.

(** Every transfer of a run is the transfer for one of the visited
    containers. *)
Lemma rangeContainers_transfers c env cs : forall i template w r template' w',
  rangeContainers c env i cs template w = (r, template', w') ->
  exists ts, transfers w' = transfers w ++ ts
    /\ Forall (fun p => exists container, container ∈ cs /\ transferFor c container p) ts.
Proof.
  induction cs as [|container rest IH]; intros i template w r template' w' Hrun;
    simpl in Hrun.
  - inversion Hrun; subst. exists []. by rewrite app_nil_r.
  - destruct (name.ParseReference (corev1.Image container)) as [srcImg|perr] eqn:Hparse.
    2:{ inversion Hrun; subst. exists []. by rewrite app_nil_r. }
    destruct (decide _) as [Hsame|Hdiff].
    { apply IH in Hrun as (ts & Ht & Hall). exists ts. split; [done|].
      eapply Forall_impl; [exact Hall|]. intros p (x & Hx & Hp). exists x.
      split; [by constructor|done]. }
    destruct (toDestinationImage srcImg (BackupRegistry c)) as [dstImg|derr] eqn:Hdst.
    2:{ inversion Hrun; subst. exists []. by rewrite app_nil_r. }
    assert (Hhere : exists x, x ∈ container :: rest
                     /\ transferFor c x (name.Name srcImg, name.Tag_Name dstImg)).
    { exists container. split; [by constructor|]. by exists srcImg, dstImg. }
    destruct (copyOutcome env _ _ _) as [cerr|] eqn:Hcopy.
    + inversion Hrun; subst; simpl. eexists. split; [reflexivity|]. by constructor.
    + apply IH in Hrun as (ts & Ht & Hall). simpl in Ht.
      exists ((name.Name srcImg, name.Tag_Name dstImg) :: ts). split.
      * by rewrite Ht, <- app_assoc.
      * constructor; [done|]. eapply Forall_impl; [exact Hall|].
        intros p (x & Hx & Hp). exists x. split; [by constructor|done].
Qed.

(** What a run leaves at the index of a visited container: the container as
    it was, or the container with the destination of its transfer as image. *)
Lemma rangeContainers_lookup c env cs : forall i template w r template' w',
  rangeContainers c env i cs template w = (r, template', w') ->
  (forall k, cs !! k = corev1.Containers (corev1.Spec template) !! (i + k)) ->
  forall k container, cs !! k = Some container ->
    corev1.Containers (corev1.Spec template') !! (i + k) = Some container
    \/ exists src dst, transferFor c container (src, dst)
         /\ (src, dst) ∈ drop (length (transfers w)) (transfers w')
         /\ corev1.Containers (corev1.Spec template') !! (i + k)
            = Some (setImage dst container).
Proof.
  induction cs as [|container rest IH];
    intros i template w r template' w' Hrun Hsnap k x Hk; [done|].
  assert (Houtside : forall r0 t0 w0 w00,
            rangeContainers c env (S i) rest t0 w00 = (r0, template', w0) ->
            corev1.Containers (corev1.Spec template') !! i
            = corev1.Containers (corev1.Spec t0) !! i).
  { intros. eapply rangeContainers_outside; [eassumption|]. lia. }
  assert (Hhead : corev1.Containers (corev1.Spec template) !! i = Some container).
  { pose proof (Hsnap 0) as H0. rewrite Nat.add_0_r in H0. by rewrite <- H0. }
  assert (Hrest : forall t0,
            (forall j, i < j -> corev1.Containers (corev1.Spec t0) !! j
                              = corev1.Containers (corev1.Spec template) !! j) ->
            forall k0, rest !! k0 = corev1.Containers (corev1.Spec t0) !! (S i + k0)).
  { intros t0 Ht0 k0. rewrite Ht0 by lia.
    replace (S i + k0) with (i + S k0) by lia. by rewrite <- (Hsnap (S k0)). }
  simpl in Hrun.
  destruct (name.ParseReference (corev1.Image container)) as [srcImg|perr] eqn:Hparse.
  2:{ inversion Hrun; subst. left. by rewrite <- Hsnap. }
  destruct (decide _) as [Hsame|Hdiff].
  { destruct k as [|k].
    - simpl in Hk. inversion Hk; subst x. left.
      rewrite Nat.add_0_r. erewrite Houtside by eassumption. done.
    - simpl in Hk. replace (i + S k) with (S i + k) by lia.
      eapply IH; [eassumption| |done]. by apply Hrest. }
  destruct (toDestinationImage srcImg (BackupRegistry c)) as [dstImg|derr] eqn:Hdst.
  2:{ inversion Hrun; subst. left. by rewrite <- Hsnap. }
  destruct (copyOutcome env _ _ _) as [cerr|] eqn:Hcopy.
  { inversion Hrun; subst. left. by rewrite <- Hsnap. }
  pose proof (rangeContainers_world _ _ _ _ _ _ _ _ _ Hrun) as (_ & _ & _ & ts & Hts).
  simpl in Hts.
  destruct k as [|k].
  - simpl in Hk. inversion Hk; subst x. right.
    exists (name.Name srcImg), (name.Tag_Name dstImg). split; [by exists srcImg, dstImg|].
    split.
    + rewrite Hts, <- app_assoc, drop_app_length. by constructor.
    + rewrite Nat.add_0_r. erewrite Houtside by eassumption. simpl.
      rewrite list_lookup_alter_eq, Hhead. done.
  - simpl in Hk. replace (i + S k) with (S i + k) by lia.
    edestruct IH as [Hsame|(src & dst & Hfor & Hin & Hnew)];
      [eassumption| |exact Hk|by left|].
    { apply Hrest. intros j Hj. simpl. apply list_lookup_alter_ne. lia. }
    right. exists src, dst. repeat split; trivial.
    simpl in Hin. rewrite length_app in Hin. simpl in Hin.
    rewrite Hts in Hin |- *. rewrite <- app_assoc in Hin |- *.
    rewrite drop_app_length.
    rewrite <- drop_drop, drop_app_length in Hin. simpl in Hin.
    rewrite drop_0 in Hin. by constructor.
Qed.

(** A run over containers that are all in the backup registry already does
    nothing. *)
Lemma rangeContainers_all_mirrored c env cs : forall i template w,
  Forall (alreadyMirrored c) cs ->
  rangeContainers c env i cs template w = (None, template, w).
Proof.
  induction cs as [|container rest IH]; intros i template w Hall; [done|].
  inversion Hall as [|? ? (srcImg & Hparse & Hreg) Hrest]; subst.
  simpl. rewrite Hparse. rewrite decide_True by done. by apply IH.
Qed.

(** ** The reconcilers *)

(** C6. When the fetch reports the workload as not found, the attempt ends
    without error and leaves the world exactly as it was: no transfer, no
    write, no event.  This holds for both kinds of workload. *)
Theorem not_found_is_successful_noop c env req w :
  (forall err, Get_Deployment env (Request_NamespacedName req) w = Err err ->
     IsNotFound err = true ->
     ReconcileDeployment c env req w = ((mkResult false 0, None), w))
  /\ (forall err, Get_DaemonSet env (Request_NamespacedName req) w = Err err ->
     IsNotFound err = true ->
     ReconcileDaemonSet c env req w = ((mkResult false 0, None), w)).
Proof.
  split; intros err Hget Hnf.
  - unfold ReconcileDeployment. by rewrite Hget, Hnf.
  - unfold ReconcileDaemonSet. by rewrite Hget, Hnf.
Qed.

Lemma not_found_is_successful_noop_witness :
  Get_Deployment calm (Request_NamespacedName webRequest) emptyWorld = Err StatusNotFound
  /\ Get_DaemonSet calm (Request_NamespacedName webRequest) emptyWorld = Err StatusNotFound
  /\ ReconcileDeployment sampleController calm webRequest emptyWorld
     = ((mkResult false 0, None), emptyWorld)
  /\ ReconcileDaemonSet sampleController calm webRequest emptyWorld
     = ((mkResult false 0, None), emptyWorld).
Proof.
  split; [reflexivity|]. split; [reflexivity|]. split.
  - exact (proj1 (not_found_is_successful_noop sampleController calm webRequest emptyWorld)
             StatusNotFound eq_refl eq_refl).
  - exact (proj2 (not_found_is_successful_noop sampleController calm webRequest emptyWorld)
             StatusNotFound eq_refl eq_refl).
Defined.

Lemma Patch_Deployment_events env obj before w :
  events (snd (Patch_Deployment env obj before w)) = events w.
Proof. unfold Patch_Deployment. repeat case_match; done. Qed.

Lemma Patch_DaemonSet_events env obj before w :
  events (snd (Patch_DaemonSet env obj before w)) = events w.
Proof. unfold Patch_DaemonSet. repeat case_match; done. Qed.

(** C7. The events of an attempt: one warning event on the fetched workload,
    carrying the error, when the rewrite of its pod template fails, and none
    in every other case (workload not found, read failure, nothing to change,
    commit, conflict at commit).  This holds for both kinds of workload. *)
Theorem warning_event_iff_rewrite_fails c env req w :
  events (snd (ReconcileDeployment c env req w))
  = events w ++
    match Get_Deployment env (Request_NamespacedName req) w with
    | Ok fetched =>
        match reconcilePodTemplate c env
                (appsv1.Deployment_Template (appsv1.Deployment_Spec fetched)) w with
        | (Some err, _, _) =>
            [mkEvent "Deployment" (keyOf (appsv1.Deployment_ObjectMeta fetched))
               corev1.EventTypeWarning "FailedCopyingImages" err]
        | (None, _, _) => []
        end
    | Err _ => []
    end
  /\ events (snd (ReconcileDaemonSet c env req w))
  = events w ++
    match Get_DaemonSet env (Request_NamespacedName req) w with
    | Ok fetched =>
        match reconcilePodTemplate c env
                (appsv1.DaemonSet_Template (appsv1.DaemonSet_Spec fetched)) w with
        | (Some err, _, _) =>
            [mkEvent "DaemonSet" (keyOf (appsv1.DaemonSet_ObjectMeta fetched))
               corev1.EventTypeWarning "FailedCopyingImages" err]
        | (None, _, _) => []
        end
    | Err _ => []
    end.
Proof.
  split.
  - unfold ReconcileDeployment.
    destruct (Get_Deployment env _ w) as [fetched|gerr].
    2:{ destruct (IsNotFound gerr); simpl; by rewrite app_nil_r. }
    destruct (reconcilePodTemplate c env _ w) as [[[err|] template] w1] eqn:Hrun;
      apply rangeContainers_world in Hrun as (_ & Hev & _).
    + simpl. by rewrite Hev.
    + destruct (negb _).
      * pose proof (Patch_Deployment_events env (setDeploymentTemplate template fetched)
                      fetched w1) as Hp.
        destruct (Patch_Deployment env _ fetched w1) as [perr w2]. simpl in *.
        by rewrite Hp, Hev, app_nil_r.
      * simpl. by rewrite Hev, app_nil_r.
  - unfold ReconcileDaemonSet.
    destruct (Get_DaemonSet env _ w) as [fetched|gerr].
    2:{ destruct (IsNotFound gerr); simpl; by rewrite app_nil_r. }
    destruct (reconcilePodTemplate c env _ w) as [[[err|] template] w1] eqn:Hrun;
      apply rangeContainers_world in Hrun as (_ & Hev & _).
    + simpl. by rewrite Hev.
    + destruct (negb _).
      * pose proof (Patch_DaemonSet_events env (setDaemonSetTemplate template fetched)
                      fetched w1) as Hp.
        destruct (Patch_DaemonSet env _ fetched w1) as [perr w2]. simpl in *.
        by rewrite Hp, Hev, app_nil_r.
      * simpl. by rewrite Hev, app_nil_r.
Qed.

Lemma reconcilePodTemplate_failure c env template w err template1 w1 :
  reconcilePodTemplate c env template w = (Some err, template1, w1) ->
  exists pre failing post,
    corev1.Containers (corev1.Spec template) = pre ++ failing :: post
    /\ drop (length pre) (corev1.Containers (corev1.Spec template1)) = failing :: post
    /\ forall post', exists t',
         reconcilePodTemplate c env (withContainers (pre ++ failing :: post') template) w
         = (Some err, t', w1).
Proof.
  unfold reconcilePodTemplate. intros Hrun.
  destruct (rangeContainers_failure _ _ _ _ _ _ _ _ _ Hrun)
    as (pre & failing & post & w0 & Hcs & Hpre & Hany).
  exists pre, failing, post. split; [done|]. split; [|intros; apply Hany].
  rewrite <- (drop_app_length pre (failing :: post)), <- Hcs.
  apply list_eq. intros j. rewrite !lookup_drop.
  eapply rangeContainers_outside; [exact Hpre|]. lia.
Qed.

(** C9. A rewrite of a pod template changes images only: the template it
    leaves has the same metadata, init containers and service account, and
    as many containers, in the same order, each with its name and its other
    fields; a container whose image changed carries the destination of a
    transfer made for it.  A workload of either kind that is given the
    rewritten template keeps its metadata and the other fields of its spec.
    The rewrite does not write to the store, issues no patch and records no
    event. *)
Theorem rewrite_changes_images_only c env template w r template' w'
    (Hrun : reconcilePodTemplate c env template w = (r, template', w')) :
  sameButImages template template'
  /\ length (corev1.Containers (corev1.Spec template'))
     = length (corev1.Containers (corev1.Spec template))
  /\ (forall j container,
        corev1.Containers (corev1.Spec template) !! j = Some container ->
        corev1.Containers (corev1.Spec template') !! j = Some container
        \/ exists src dst, transferFor c container (src, dst)
             /\ (src, dst) ∈ drop (length (transfers w)) (transfers w')
             /\ corev1.Containers (corev1.Spec template') !! j
                = Some (setImage dst container))
  /\ (forall d : appsv1.Deployment,
        appsv1.Deployment_Template (appsv1.Deployment_Spec d) = template ->
        let d' := setDeploymentTemplate template' d in
        appsv1.Deployment_ObjectMeta d' = appsv1.Deployment_ObjectMeta d
        /\ appsv1.Replicas (appsv1.Deployment_Spec d') = appsv1.Replicas (appsv1.Deployment_Spec d)
        /\ appsv1.Paused (appsv1.Deployment_Spec d') = appsv1.Paused (appsv1.Deployment_Spec d)
        /\ sameButImages (appsv1.Deployment_Template (appsv1.Deployment_Spec d))
                         (appsv1.Deployment_Template (appsv1.Deployment_Spec d')))
  /\ (forall d : appsv1.DaemonSet,
        appsv1.DaemonSet_Template (appsv1.DaemonSet_Spec d) = template ->
        let d' := setDaemonSetTemplate template' d in
        appsv1.DaemonSet_ObjectMeta d' = appsv1.DaemonSet_ObjectMeta d
        /\ appsv1.MinReadySeconds (appsv1.DaemonSet_Spec d')
           = appsv1.MinReadySeconds (appsv1.DaemonSet_Spec d)
        /\ sameButImages (appsv1.DaemonSet_Template (appsv1.DaemonSet_Spec d))
                         (appsv1.DaemonSet_Template (appsv1.DaemonSet_Spec d')))
  /\ store w' = store w /\ patches w' = patches w /\ events w' = events w.
Proof.
  pose proof (rangeContainers_world _ _ _ _ _ _ _ _ _ Hrun) as (Hs & He & Hp & _).
  pose proof (rangeContainers_template _ _ _ _ _ _ _ _ _ Hrun) as Hframe.
  split; [done|]. split.
  { destruct Hframe as (_ & _ & _ & Hall). symmetry. by eapply Forall2_length. }
  split; [|split; [by intros d ->|split; [by intros d ->|done]]].
  intros j container Hj.
  unfold reconcilePodTemplate in Hrun.
  exact (rangeContainers_lookup _ _ _ _ _ _ _ _ _ Hrun (fun k => eq_refl) j container Hj).
Qed.

Lemma rewrite_changes_images_only_witness :
  let w := worldWith nginxRedis in
  exists r template' w',
    reconcilePodTemplate sampleController redisUnavailable (sampleTemplate nginxRedis) w
    = (r, template', w')
    /\ sameButImages (sampleTemplate nginxRedis) template'
    /\ store w' = store w /\ patches w' = patches w /\ events w' = events w.
Proof.
  intros w. eexists _, _, _. split; [vm_compute; reflexivity|].
  destruct (rewrite_changes_images_only sampleController redisUnavailable
              (sampleTemplate nginxRedis) w _ _ _ eq_refl)
    as (Hframe & _ & _ & _ & _ & Hs & Hp & He).
  exact (conj Hframe (conj Hs (conj Hp He))).
Defined.

(** ** Strings *)

Lemma append_cons x (a b : string) : String x a +:+ b = String x (a +:+ b).
Proof. reflexivity. Qed.

Lemma append_nil_l (b : string) : "" +:+ b = b.
Proof. reflexivity. Qed.

Lemma append_assoc (a b d : string) : (a +:+ b) +:+ d = a +:+ (b +:+ d).
Proof. induction a as [|x a IH]; [done|]. rewrite !append_cons. by rewrite IH. Qed.

Lemma append_nil_r (a : string) : a +:+ "" = a.
Proof. induction a as [|x a IH]; [done|]. rewrite append_cons. by rewrite IH. Qed.

Lemma length_append (a b : string) :
  String.length (a +:+ b) = String.length a + String.length b.
Proof. induction a as [|x a IH]; [done|]. rewrite append_cons. simpl. by rewrite IH. Qed.

Lemma ContainsRune_app a b r :
  strings.ContainsRune (a +:+ b) r = strings.ContainsRune a r || strings.ContainsRune b r.
Proof.
  induction a as [|x a IH]; [done|]. rewrite append_cons. simpl.
  by rewrite IH, orb_assoc.
Qed.

Lemma allBytes_app p a b :
  name.allBytes p (a +:+ b) = name.allBytes p a && name.allBytes p b.
Proof.
  induction a as [|x a IH]; [done|]. rewrite append_cons. simpl.
  by rewrite IH, andb_assoc.
Qed.

(** A string all of whose bytes satisfy [p] has no byte that fails [p]. *)
Lemma allBytes_ContainsRune p s r :
  name.allBytes p s = true -> p r = false -> strings.ContainsRune s r = false.
Proof.
  induction s as [|x s IH]; simpl; [done|].
  intros [Hx Hs]%andb_true_iff Hr. rewrite IH by done.
  destruct (Ascii.eqb_spec x r); [congruence|done].
Qed.

Lemma allBytes_impl (p q : ascii -> bool) s :
  (forall x, p x = true -> q x = true) ->
  name.allBytes p s = true -> name.allBytes q s = true.
Proof.
  intros Hpq. induction s as [|x s IH]; simpl; [done|].
  intros [Hx Hs]%andb_true_iff. by rewrite (Hpq _ Hx), IH.
Qed.

Lemma Split_nonempty s sep : strings.Split s sep <> [].
Proof.
  destruct s as [|x s]; simpl; [done|].
  destruct (Ascii.eqb x sep); [done|]. by destruct (strings.Split s sep).
Qed.

Lemma Split_nosep s sep :
  strings.ContainsRune s sep = false -> strings.Split s sep = [s].
Proof.
  induction s as [|x s IH]; simpl; [done|].
  intros [Hx Hs]%orb_false_iff. rewrite Hx. by rewrite IH.
Qed.

(** Splitting around a separator in the middle. *)
Lemma Split_app_sep a b sep :
  strings.Split (a +:+ String sep b) sep = strings.Split a sep ++ strings.Split b sep.
Proof.
  induction a as [|x a IH].
  - rewrite append_nil_l. simpl. by rewrite Ascii.eqb_refl.
  - rewrite append_cons. simpl. rewrite IH.
    destruct (Ascii.eqb x sep); [done|].
    pose proof (Split_nonempty a sep). by destruct (strings.Split a sep).
Qed.

(** Appending text without separators extends the last piece. *)
Lemma Split_app_nosep a b sep :
  strings.ContainsRune b sep = false ->
  strings.Split (a +:+ b) sep
  = List.removelast (strings.Split a sep) ++ [List.last (strings.Split a sep) "" +:+ b].
Proof.
  intros Hb. induction a as [|x a IH].
  - rewrite append_nil_l. by apply Split_nosep.
  - rewrite append_cons. simpl. rewrite IH.
    pose proof (Split_nonempty a sep).
    destruct (Ascii.eqb x sep).
    + by destruct (strings.Split a sep).
    + by destruct (strings.Split a sep) as [|p [|q ps]].
Qed.

Lemma Join_snoc l x sep :
  l <> [] -> strings.Join (l ++ [x]) sep = strings.Join l sep +:+ String sep x.
Proof.
  induction l as [|p l IH]; [done|]. intros _.
  destruct l as [|q l]; [done|].
  change (strings.Join ((p :: q :: l) ++ [x]) sep)
    with (p +:+ String sep (strings.Join ((q :: l) ++ [x]) sep)).
  rewrite IH by done.
  change (strings.Join (p :: q :: l) sep)
    with (p +:+ String sep (strings.Join (q :: l) sep)).
  by rewrite append_assoc.
Qed.

Lemma Join_Split s sep : strings.Join (strings.Split s sep) sep = s.
Proof.
  induction s as [|x s IH]; simpl; [done|].
  pose proof (Split_nonempty s sep) as Hne.
  destruct (Ascii.eqb_spec x sep) as [->|Hx].
  - destruct (strings.Split s sep) as [|p ps] eqn:Hsplit; [done|].
    change (strings.Join ("" :: p :: ps) sep)
      with ("" +:+ String sep (strings.Join (p :: ps) sep)).
    by rewrite IH.
  - destruct (strings.Split s sep) as [|p [|q ps]] eqn:Hsplit; [done| |].
    + simpl in *. by rewrite IH.
    + change (strings.Join (String x p :: q :: ps) sep)
        with (String x (p +:+ String sep (strings.Join (q :: ps) sep))).
      f_equal. exact IH.
Qed.

Lemma SplitN2_nosep s sep :
  strings.ContainsRune s sep = false -> strings.SplitN2 s sep = [s].
Proof.
  induction s as [|x s IH]; simpl; [done|].
  intros [Hx Hs]%orb_false_iff. rewrite Hx. by rewrite IH.
Qed.

Lemma SplitN2_app a b sep :
  strings.ContainsRune a sep = false ->
  strings.SplitN2 (a +:+ String sep b) sep = [a; b].
Proof.
  induction a as [|x a IH].
  - intros _. rewrite append_nil_l. simpl. by rewrite Ascii.eqb_refl.
  - rewrite append_cons. simpl. intros [Hx Hs]%orb_false_iff. rewrite Hx. by rewrite IH.
Qed.

(** The pieces of [SplitN2] put the string back together. *)
Lemma SplitN2_inv s sep :
  (strings.SplitN2 s sep = [s] /\ strings.ContainsRune s sep = false)
  \/ exists a b, strings.SplitN2 s sep = [a; b] /\ s = a +:+ String sep b
       /\ strings.ContainsRune a sep = false.
Proof.
  induction s as [|x s IH]; simpl; [by left|].
  destruct (Ascii.eqb_spec x sep) as [->|Hx].
  - right. by exists "", s.
  - destruct IH as [[-> Hs]|(a & b & -> & -> & Ha)].
    + left. split; [done|]. by rewrite Hs.
    + right. exists (String x a), b. repeat split; trivial. simpl.
      rewrite Ha. by destruct (Ascii.eqb_spec x sep).
Qed.

Lemma Replace_length pairs s :
  String.length (strings.Replace pairs s) = String.length s.
Proof. induction s as [|x s IH]; simpl; [done|]. by rewrite IH. Qed.

Lemma ReplaceAll_length s old new :
  String.length (strings.ReplaceAll s old new) = String.length s.
Proof. induction s as [|x s IH]; simpl; [done|]. by rewrite IH. Qed.

Lemma ReplaceAll_allBytes (p q : ascii -> bool) s old new :
  (forall x, p x = true -> q (if Ascii.eqb x old then new else x) = true) ->
  name.allBytes p s = true -> name.allBytes q (strings.ReplaceAll s old new) = true.
Proof.
  intros Hpq. induction s as [|x s IH]; simpl; [done|].
  intros [Hx Hs]%andb_true_iff. by rewrite (Hpq _ Hx), IH.
Qed.

(** ** The checks of the [name] package *)

Lemma Map_strip_empty allowed e :
  String.length (strings.Map (name.stripRunesFn allowed) e) = 0
  <-> name.allBytes (strings.ContainsRune allowed) e = true.
Proof.
  induction e as [|x e IH]; simpl; [done|].
  unfold name.stripRunesFn at 1. destruct (strings.ContainsRune allowed x); simpl.
  - exact IH.
  - split; intros; discriminate.
Qed.

(** [checkElement] accepts exactly the strings of allowed bytes whose length
    is in range. *)
Lemma checkElement_None what e allowed lo hi :
  name.checkElement what e allowed lo hi = None
  <-> (lo <= String.length e <= hi)
      /\ name.allBytes (strings.ContainsRune allowed) e = true.
Proof.
  unfold name.checkElement.
  destruct (Nat.ltb_spec (String.length e) lo) as [Hlo|Hlo]; simpl.
  { split; [done|]. intros [[? ?] _]. lia. }
  destruct (Nat.ltb_spec hi (String.length e)) as [Hhi|Hhi]; simpl.
  { split; [done|]. intros [[? ?] _]. lia. }
  destruct (Nat.eqb_spec (String.length (strings.Map (name.stripRunesFn allowed) e)) 0)
    as [Hz|Hz]; simpl.
  - split; [|done]. intros _. split; [lia|]. by apply Map_strip_empty.
  - split; [done|]. intros [_ Hall]. by apply Map_strip_empty in Hall.
Qed.

Lemma checkTag_None tag :
  name.checkTag tag = None ->
  tag <> "" /\ strings.ContainsRune tag ":" = false
  /\ strings.ContainsRune tag "/" = false /\ strings.ContainsRune tag "@" = false.
Proof.
  intros [[Hlo _] Hall]%checkElement_None. split.
  { intros ->. simpl in Hlo. lia. }
  repeat split; by eapply allBytes_ContainsRune.
Qed.

Lemma checkRepository_None repo :
  name.checkRepository repo = None ->
  repo <> "" /\ strings.ContainsRune repo ":" = false
  /\ strings.ContainsRune repo "@" = false.
Proof.
  intros [[Hlo _] Hall]%checkElement_None. split.
  { intros ->. simpl in Hlo. lia. }
  split; by eapply allBytes_ContainsRune.
Qed.

Lemma checkDigest_None dig :
  name.checkDigest dig = None ->
  strings.ContainsRune dig "@" = false /\ strings.ContainsRune dig "/" = false.
Proof.
  intros [_ Hall]%checkElement_None. split; by eapply allBytes_ContainsRune.
Qed.

Lemma checkRegistry_None reg :
  name.checkRegistry reg = None ->
  strings.ContainsRune reg "/" = false /\ strings.ContainsRune reg "@" = false.
Proof.
  unfold name.checkRegistry.
  destruct (name.allBytes name.hostByte reg) eqn:Hall; simpl; [|done].
  intros _. split; by eapply allBytes_ContainsRune.
Qed.

(** A digest with its [:] replaced by [_] is a valid tag. *)
Lemma checkDigest_as_tag dig :
  name.checkDigest dig = None ->
  name.checkTag (strings.ReplaceAll dig ":" "_") = None.
Proof.
  intros [Hlen Hall]%checkElement_None. apply checkElement_None.
  rewrite ReplaceAll_length. split; [simpl in Hlen; lia|].
  eapply ReplaceAll_allBytes; [|exact Hall].
  intros x Hx.
  destruct x as [[] [] [] [] [] [] [] []]; vm_compute in Hx |- *; congruence.
Qed.

Lemma DefaultTag_valid : name.checkTag name.DefaultTag = None.
Proof. by vm_compute. Qed.

Lemma DefaultRegistry_wf :
  wfRegistry {| name.insecure := false; name.registry := name.DefaultRegistry |}.
Proof. by repeat split. Qed.

Lemma hasDotOrColon_nonempty s : hasDotOrColon s = true -> s <> "".
Proof. by intros H ->. Qed.

(** ** The constructors of the [name] package *)

Lemma NewRegistry_eq reg :
  name.checkRegistry reg = None -> reg <> "" -> reg <> name.defaultRegistryAlias ->
  name.NewRegistry reg = Ok {| name.insecure := false; name.registry := reg |}.
Proof.
  intros Hcheck Hne Halias. unfold name.NewRegistry. rewrite Hcheck.
  destruct (String.eqb_spec reg ""); [done|].
  by destruct (String.eqb_spec reg name.defaultRegistryAlias).
Qed.

Lemma NewRegistry_wf_eq r :
  wfRegistry r -> name.NewRegistry (name.registry r) = Ok r.
Proof.
  destruct r as [ins reg]. intros (Hins & Hcheck & Hdot & Halias). simpl in *. subst ins.
  apply NewRegistry_eq; trivial. by apply hasDotOrColon_nonempty.
Qed.

(** A registry made by [NewRegistry] is made again from its own name. *)
Lemma NewRegistry_idem s r :
  name.NewRegistry s = Ok r ->
  name.insecure r = false /\ name.NewRegistry (name.registry r) = Ok r.
Proof.
  unfold name.NewRegistry at 1.
  destruct (name.checkRegistry s) eqn:Hcheck; [done|].
  destruct (String.eqb_spec s "") as [->|Hne].
  { intros [= <-]. by split. }
  destruct (String.eqb_spec s name.defaultRegistryAlias) as [->|Halias].
  { intros [= <-]. by split. }
  intros [= <-]. split; [done|]. by apply NewRegistry_eq.
Qed.

(** [NewRepository] on a name that starts with a registry. *)
Lemma NewRepository_eq reg repo :
  strings.ContainsRune reg "/" = false -> hasDotOrColon reg = true ->
  name.NewRepository (reg +:+ String "/" repo)
  = match name.checkRepository repo with
    | Some e => Err e
    | None =>
        match name.NewRegistry reg with
        | Err e => Err e
        | Ok r => Ok {| name.Repository_Registry := r; name.repository := repo |}
        end
    end.
Proof.
  intros Hslash Hdot. unfold name.NewRepository.
  destruct (String.eqb_spec (reg +:+ String "/" repo) "") as [Hempty|_].
  { destruct reg; discriminate. }
  unfold name.regRepoDelimiter. rewrite SplitN2_app by done.
  fold (hasDotOrColon reg). by rewrite Hdot.
Qed.

(** [NewTag] on a name that ends in [:tag]. *)
Lemma NewTag_eq base tag :
  tag <> "" -> strings.ContainsRune tag ":" = false ->
  strings.ContainsRune tag "/" = false ->
  name.NewTag (base +:+ String ":" tag)
  = match name.checkTag tag with
    | Some e => Err e
    | None =>
        match name.NewRepository base with
        | Err e => Err e
        | Ok repo =>
            Ok {| name.Tag_Repository := repo; name.tag := tag;
                  name.Tag_original := base +:+ String ":" tag |}
        end
    end.
Proof.
  intros Hne Hcolon Hslash. unfold name.NewTag, name.tagDelim, name.regRepoDelimiter.
  rewrite Split_app_sep, (Split_nosep tag) by done.
  rewrite last_last, removelast_last, Join_Split, length_app. simpl.
  pose proof (Split_nonempty base ":") as Hparts.
  destruct (strings.Split base ":") as [|p ps] eqn:Hsplit; [done|].
  replace (1 <? length (p :: ps) + 1)%nat with true
    by (symmetry; apply Nat.ltb_lt; simpl; lia).
  unfold strings.Contains. rewrite Hslash. simpl.
  destruct (String.eqb_spec tag "") as [->|_]; [done|]. done.
Qed.

(** [NewTag] on a name without a tag: registry, [/], repository. *)
Lemma NewTag_notag reg repo :
  strings.ContainsRune repo ":" = false ->
  name.NewTag (reg +:+ String "/" repo)
  = match name.NewRepository (reg +:+ String "/" repo) with
    | Err e => Err e
    | Ok r =>
        Ok {| name.Tag_Repository := r; name.tag := name.DefaultTag;
              name.Tag_original := reg +:+ String "/" repo |}
    end.
Proof.
  intros Hcolon. unfold name.NewTag, name.tagDelim, name.regRepoDelimiter.
  rewrite (Split_app_nosep reg (String "/" repo)) by (simpl; by rewrite Hcolon).
  rewrite last_last. unfold strings.Contains.
  rewrite ContainsRune_app. simpl. rewrite orb_true_r, andb_false_r. done.
Qed.

(** ** Parsed references are well formed *)

Lemma NewRegistry_wf s r :
  name.NewRegistry s = Ok r -> s = "" \/ hasDotOrColon s = true -> wfRegistry r.
Proof.
  unfold name.NewRegistry.
  destruct (name.checkRegistry s) eqn:Hcheck; [done|].
  destruct (String.eqb_spec s "") as [->|Hne].
  { intros [= <-] _. apply DefaultRegistry_wf. }
  destruct (String.eqb_spec s name.defaultRegistryAlias) as [->|Halias].
  { intros [= <-] _. apply DefaultRegistry_wf. }
  intros [= <-] [->|Hdot]; [done|]. by repeat split.
Qed.

Lemma NewRepository_wf s r : name.NewRepository s = Ok r -> wfRepository r.
Proof.
  unfold name.NewRepository. destruct (String.eqb s ""); [done|].
  assert (Hgen : forall reg repo,
            reg = "" \/ hasDotOrColon reg = true ->
            match name.checkRepository repo with
            | Some e => Err e
            | None =>
                match name.NewRegistry reg with
                | Err e => Err e
                | Ok reg0 =>
                    Ok {| name.Repository_Registry := reg0; name.repository := repo |}
                end
            end = Ok r -> wfRepository r).
  { intros reg repo Hreg.
    destruct (name.checkRepository repo) eqn:Hrepo; [done|].
    destruct (name.NewRegistry reg) as [reg0|] eqn:Hnew; [|done].
    intros [= <-]. split; [by eapply NewRegistry_wf|done]. }
  destruct (strings.SplitN2 s name.regRepoDelimiter) as [|p0 [|p1 [|p2 ps]]];
    try (apply Hgen; by left).
  fold (hasDotOrColon p0). destruct (hasDotOrColon p0) eqn:Hdot; apply Hgen; auto.
Qed.

Lemma NewTag_wf s t :
  name.NewTag s = Ok t ->
  wfRepository (name.Tag_Repository t) /\ name.checkTag (name.tag t) = None.
Proof.
  unfold name.NewTag.
  destruct (_ && _).
  - destruct (String.eqb_spec (List.last (strings.Split s name.tagDelim) "") "")
      as [Hempty|Hne]; simpl.
    + destruct (name.NewRepository _) as [repo|] eqn:Hrepo; [|done].
      intros [= <-]. simpl. split; [by eapply NewRepository_wf|apply DefaultTag_valid].
    + destruct (name.checkTag _) eqn:Htag; [done|].
      destruct (name.NewRepository _) as [repo|] eqn:Hrepo; [|done].
      intros [= <-]. simpl. split; [by eapply NewRepository_wf|done].
  - simpl. destruct (name.NewRepository s) as [repo|] eqn:Hrepo; [|done].
    intros [= <-]. simpl. split; [by eapply NewRepository_wf|apply DefaultTag_valid].
Qed.

Lemma NewDigest_wf s d :
  name.NewDigest s = Ok d ->
  wfRepository (name.Digest_Repository d) /\ name.checkDigest (name.digest d) = None.
Proof.
  unfold name.NewDigest.
  destruct (strings.Split s name.digestDelim) as [|base [|dig [|x xs]]]; try done.
  destruct (name.checkDigest dig) eqn:Hdig; [done|].
  destruct (name.NewRepository _) as [repo|] eqn:Hrepo; [|done].
  intros [= <-]. simpl. split; [by eapply NewRepository_wf|done].
Qed.

(** Every reference that [ParseReference] returns is well formed. *)
Lemma ParseReference_wf s r : name.ParseReference s = Ok r -> wfReference r.
Proof.
  unfold name.ParseReference.
  destruct (name.NewTag s) as [t|] eqn:Htag.
  { intros [= <-]. by apply NewTag_wf in Htag. }
  destruct (name.NewDigest s) as [d|] eqn:Hdig; [|done].
  intros [= <-]. by apply NewDigest_wf in Hdig.
Qed.

(** ** The destination naming scheme *)

Lemma name_shape (a b d : string) :
  a +:+ "/" +:+ b +:+ ":" +:+ d = (a +:+ String "/" b) +:+ String ":" d.
Proof.
  change ("/" +:+ b +:+ ":" +:+ d) with (String "/" (b +:+ String ":" d)).
  rewrite append_assoc. by rewrite append_cons.
Qed.

Lemma destinationIdentifier_valid src :
  wfReference src -> name.checkTag (destinationIdentifier src) = None.
Proof.
  intros [_ Hid]. destruct src as [t|d]; simpl in *; [done|].
  by apply checkDigest_as_tag.
Qed.

(** [toDestinationImage] for a backup registry whose name has a [.] or a
    [:]: the only test left is the one on the destination repository. *)
Lemma toDestinationImage_eq src backup :
  wfReference src ->
  name.NewRegistry (name.registry backup) = Ok backup ->
  hasDotOrColon (name.registry backup) = true ->
  toDestinationImage src backup
  = match name.checkRepository (destinationRepository src) with
    | Some e => Err e
    | None =>
        Ok {| name.Tag_Repository :=
                {| name.Repository_Registry := backup;
                   name.repository := destinationRepository src |};
              name.tag := destinationIdentifier src;
              name.Tag_original :=
                name.RegistryStr backup +:+ "/" +:+ destinationRepository src
                +:+ ":" +:+ destinationIdentifier src |}
    end.
Proof.
  intros Hwf Hnew Hdot.
  assert (Hcheck : name.checkRegistry (name.registry backup) = None).
  { unfold name.NewRegistry in Hnew. by destruct (name.checkRegistry _). }
  apply checkRegistry_None in Hcheck as [Hslash _].
  pose proof (destinationIdentifier_valid src Hwf) as Htag.
  pose proof (checkTag_None _ Htag) as (Hne & Hcolon & Hnoslash & _).
  unfold toDestinationImage.
  replace (match src with
           | name.RefTag _ => name.Identifier src
           | name.RefDigest digest => strings.ReplaceAll (name.DigestStr digest) ":" "_"
           end) with (destinationIdentifier src) by (by destruct src).
  fold (sanitize (name.RegistryStr (name.Repository_Registry (name.Context src)))).
  fold (destinationRepository src).
  rewrite !name_shape, NewTag_eq, Htag by done.
  unfold name.RegistryStr. rewrite NewRepository_eq, Hnew by done.
  unfold destinationRepository, sanitize, registryReplacer, name.RegistryStr.
  by destruct (name.checkRepository _).
Qed.

Lemma destinationRepository_explicit src backup :
  name.RepositoryStr
    {| name.Repository_Registry := backup; name.repository := destinationRepository src |}
  = destinationRepository src.
Proof.
  unfold name.RepositoryStr, name.hasImplicitNamespace. simpl.
  unfold destinationRepository. rewrite ContainsRune_app.
  change ("/" +:+ name.RepositoryStr (name.Context src))
    with (String "/" (name.RepositoryStr (name.Context src))).
  simpl. by rewrite orb_true_r.
Qed.

(** C2, as amended.  For every parsed source reference and every backup
    registry made by [NewRegistry] whose name has a [.] or a [:], a
    destination that [toDestinationImage] returns has the backup registry as
    registry, the sanitized source registry, a slash and the unchanged source
    repository path as repository path, and as tag the source tag verbatim
    or the source digest with its [:] replaced by [_]; it prints as
    registry, [/], repository path, [:], tag. *)
Theorem destination_reference_components s src b backup dst :
  name.ParseReference s = Ok src ->
  name.NewRegistry b = Ok backup ->
  hasDotOrColon (name.RegistryStr backup) = true ->
  toDestinationImage src backup = Ok dst ->
  name.Repository_Registry (name.Tag_Repository dst) = backup
  /\ name.RepositoryStr (name.Tag_Repository dst) = destinationRepository src
  /\ name.TagStr dst = destinationIdentifier src
  /\ name.Tag_Name dst
     = name.RegistryStr backup +:+ "/" +:+ destinationRepository src
       +:+ ":" +:+ destinationIdentifier src.
Proof.
  intros Hparse Hnew Hdot Hdst.
  apply ParseReference_wf in Hparse.
  apply NewRegistry_idem in Hnew as [_ Hnew].
  rewrite toDestinationImage_eq in Hdst by done.
  destruct (name.checkRepository (destinationRepository src)); [done|].
  injection Hdst as <-. unfold name.Tag_Name, name.Repository_Name, name.Registry_Name.
  simpl. rewrite destinationRepository_explicit. repeat split.
  destruct (String.eqb_spec (name.RegistryStr backup) "") as [Hempty|_].
  { unfold name.RegistryStr in *. by rewrite Hempty in Hdot. }
  simpl. by rewrite name_shape.
Qed.

(** The first row of the table of examples: [nginx] with backup registry
    [10.96.0.11:5001]. *)
Lemma destination_reference_components_witness :
  exists dst,
    toDestinationImage nginxLatest (BackupRegistry sampleController) = Ok dst
    /\ name.Repository_Registry (name.Tag_Repository dst) = BackupRegistry sampleController
    /\ name.RepositoryStr (name.Tag_Repository dst) = "index_docker_io/library/nginx"
    /\ name.TagStr dst = "latest"
    /\ name.Tag_Name dst = "10.96.0.11:5001/index_docker_io/library/nginx:latest".
Proof.
  eexists. split; [vm_compute; reflexivity|].
  exact (destination_reference_components "nginx" nginxLatest "10.96.0.11:5001"
           (BackupRegistry sampleController) _ eq_refl eq_refl eq_refl eq_refl).
Defined.

(** Counterexample to C2: an image on a registry written in upper case parses,
    yet has no destination; and with a backup registry named [localhost] the
    destination of [nginx] is in the registry [index.docker.io]. *)
Lemma destination_reference_counterexample :
  (name.ParseReference upperCaseImage = Ok upperCaseRef
   /\ name.NewRegistry "10.96.0.11:5001" = Ok (BackupRegistry sampleController)
   /\ toDestinationImage upperCaseRef (BackupRegistry sampleController)
      = Err (ErrBadName "repository has a character that is not allowed"
               "GHCR_IO/timebertt/speedtest-exporter"))
  /\ (name.ParseReference "nginx" = Ok nginxLatest
      /\ name.NewRegistry "localhost" = Ok localhostRegistry
      /\ exists dst, toDestinationImage nginxLatest localhostRegistry = Ok dst
           /\ name.Repository_Registry (name.Tag_Repository dst) = dockerHub
           /\ name.Repository_Registry (name.Tag_Repository dst) <> localhostRegistry
           /\ name.RepositoryStr (name.Tag_Repository dst)
              = "localhost/index_docker_io/library/nginx").
Proof.
  split; [by vm_compute|].
  split; [by vm_compute|]. split; [by vm_compute|].
  eexists. split; [vm_compute; reflexivity|]. by vm_compute.
Qed.

Lemma RepositoryStr_chars r :
  wfRepository r ->
  name.allBytes (strings.ContainsRune name.repositoryChars) (name.RepositoryStr r) = true
  /\ 2 <= String.length (name.RepositoryStr r).
Proof.
  intros [_ [[Hlo _] Hall]%checkElement_None]. unfold name.RepositoryStr.
  destruct (name.hasImplicitNamespace _ _); [|done].
  unfold name.defaultNamespace. rewrite !allBytes_app, !length_append, Hall.
  split; [by vm_compute|simpl; lia].
Qed.

(** When the destination repository is a valid repository name. *)
Lemma destinationRepository_valid_iff src :
  wfReference src ->
  name.checkRepository (destinationRepository src) = None
  <-> String.length (destinationRepository src) <= 255
      /\ name.allBytes (strings.ContainsRune name.repositoryChars)
           (sanitize (name.RegistryStr (name.Repository_Registry (name.Context src))))
         = true.
Proof.
  intros [Hrepo _]. apply RepositoryStr_chars in Hrepo as [Hchars Hlen].
  unfold name.checkRepository. rewrite checkElement_None.
  unfold destinationRepository. rewrite !allBytes_app, !length_append, Hchars.
  change (name.allBytes (strings.ContainsRune name.repositoryChars) "/") with true.
  rewrite andb_true_r. simpl String.length. split.
  - intros [[_ Hhi] Hall]. split; [lia|done].
  - intros [Hhi Hall]. split; [lia|done].
Qed.

(** C5, as amended.  [toDestinationImage] is a function of its two
    arguments that answers with a reference or with an error.  For every
    parsed source reference and every backup registry made by [NewRegistry]
    whose name has a [.] or a [:], it answers with a reference exactly when
    the destination repository path has at most 255 characters and the
    sanitized source registry has only characters of a repository name
    (a-z, 0-9, [_], [-], [.], [/]); equal arguments give equal answers. *)
Theorem destination_defined_iff s src b backup :
  name.ParseReference s = Ok src ->
  name.NewRegistry b = Ok backup ->
  hasDotOrColon (name.RegistryStr backup) = true ->
  (isOk (toDestinationImage src backup) = true
   <-> String.length (destinationRepository src) <= 255
       /\ name.allBytes (strings.ContainsRune name.repositoryChars)
            (sanitize (name.RegistryStr (name.Repository_Registry (name.Context src))))
          = true)
  /\ (forall src' backup', src' = src -> backup' = backup ->
        toDestinationImage src' backup' = toDestinationImage src backup).
Proof.
  intros Hparse Hnew Hdot. split; [|by intros ? ? -> ->].
  apply ParseReference_wf in Hparse.
  apply NewRegistry_idem in Hnew as [_ Hnew].
  rewrite toDestinationImage_eq by done.
  rewrite <- destinationRepository_valid_iff by done.
  by destruct (name.checkRepository (destinationRepository src)).
Qed.

Lemma destination_defined_iff_witness :
  name.ParseReference "nginx" = Ok nginxLatest
  /\ name.NewRegistry "10.96.0.11:5001" = Ok (BackupRegistry sampleController)
  /\ isOk (toDestinationImage nginxLatest (BackupRegistry sampleController)) = true.
Proof.
  split; [reflexivity|]. split; [reflexivity|].
  apply (proj1 (destination_defined_iff "nginx" nginxLatest "10.96.0.11:5001"
                  (BackupRegistry sampleController) eq_refl eq_refl eq_refl)).
  split; [vm_compute; lia|reflexivity].
Defined.

(** Counterexample to C5: the image [a/bbb...b] with a repository path of 242
    characters parses, and the tag construction for it fails, because the
    destination repository path would have 258 characters. *)
Lemma destination_error_reachable :
  name.ParseReference longPathImage = Ok longPathRef
  /\ name.NewRegistry "10.96.0.11:5001" = Ok (BackupRegistry sampleController)
  /\ String.length (destinationRepository longPathRef) = 258
  /\ isOk (toDestinationImage longPathRef (BackupRegistry sampleController)) = false.
Proof. by vm_compute. Qed.

(** C10 at a backup registry named [localhost].  The destination that
    [toDestinationImage] returns for [nginx] is not in the backup registry
    but in [index.docker.io], under the repository
    [localhost/index_docker_io/library/nginx].  So after the rewritten
    workload is committed, the next attempt does not skip the container: it
    transfers again and commits again. *)
Theorem destination_outside_backup_registry :
  name.NewRegistry "localhost" = Ok localhostRegistry
  /\ (exists dst, toDestinationImage nginxLatest localhostRegistry = Ok dst
        /\ name.Tag_Name dst
           = "index.docker.io/localhost/index_docker_io/library/nginx:latest"
        /\ name.RegistryStr (name.Repository_Registry (name.Tag_Repository dst))
           = "index.docker.io"
        /\ name.Repository_Registry (name.Tag_Repository dst) <> localhostRegistry)
  /\ (let w0 := worldWith [sampleContainer "a" "nginx"] in
      let w1 := snd (ReconcileDeployment localhostController calm webRequest w0) in
      let w2 := snd (ReconcileDeployment localhostController calm webRequest w1) in
      transfers w1
      = [("index.docker.io/library/nginx:latest",
          "index.docker.io/localhost/index_docker_io/library/nginx:latest")]
      /\ transfers w2
         = transfers w1 ++
           [("index.docker.io/localhost/index_docker_io/library/nginx:latest",
             "index.docker.io/localhost/index_docker_io/localhost/index_docker_io/library/nginx:latest")]
      /\ length (patches w1) = 1 /\ length (patches w2) = 2).
Proof.
  split; [reflexivity|]. split.
  - eexists. split; [vm_compute; reflexivity|]. by vm_compute.
  - by vm_compute.
Qed.

(** ** Printing and parsing again *)

Lemma RepositoryStr_canonical r :
  name.RepositoryStr (canonicalRepository r) = name.RepositoryStr r.
Proof.
  unfold canonicalRepository, name.RepositoryStr at 1. simpl.
  unfold name.RepositoryStr, name.hasImplicitNamespace.
  destruct (strings.ContainsRune (name.repository r) "/") eqn:Hslash; simpl.
  { by rewrite Hslash. }
  destruct (String.eqb _ name.DefaultRegistry) eqn:Hreg; simpl.
  - done.
  - by rewrite Hslash.
Qed.

Lemma Repository_Name_eq r :
  wfRepository r ->
  name.Repository_Name r
  = name.registry (name.Repository_Registry r) +:+ String "/" (name.RepositoryStr r).
Proof.
  intros [(_ & _ & Hdot & _) _]. unfold name.Repository_Name, name.Registry_Name,
    name.RegistryStr, name.regRepoDelimiter.
  destruct (String.eqb_spec (name.registry (name.Repository_Registry r)) "") as [He|_];
    [by rewrite He in Hdot|done].
Qed.

Lemma Repository_Name_canonical r :
  wfRepository r -> name.Repository_Name (canonicalRepository r) = name.Repository_Name r.
Proof.
  intros Hwf. unfold name.Repository_Name. by rewrite RepositoryStr_canonical.
Qed.

Lemma RepositoryStr_valid r :
  wfRepository r -> String.length (name.RepositoryStr r) <= 255 ->
  name.checkRepository (name.RepositoryStr r) = None.
Proof.
  intros Hwf Hlen. apply RepositoryStr_chars in Hwf as [Hchars Hlo].
  by apply checkElement_None.
Qed.

(** The printed form of a repository parses to the canonical repository. *)
Lemma NewRepository_Name r :
  wfRepository r -> String.length (name.RepositoryStr r) <= 255 ->
  name.NewRepository (name.Repository_Name r) = Ok (canonicalRepository r).
Proof.
  intros Hwf Hlen. pose proof Hwf as [Hreg _].
  pose proof Hreg as (_ & [Hslash _]%checkRegistry_None & Hdot & _).
  rewrite Repository_Name_eq, NewRepository_eq by done.
  by rewrite RepositoryStr_valid, NewRegistry_wf_eq.
Qed.

Lemma NewRepository_no_at s r :
  name.NewRepository s = Ok r -> strings.ContainsRune s "@" = false.
Proof.
  unfold name.NewRepository. destruct (String.eqb s ""); [done|].
  assert (Hwhole : match name.checkRepository s with
                   | Some e => Err e
                   | None =>
                       match name.NewRegistry "" with
                       | Err e => Err e
                       | Ok reg =>
                           Ok {| name.Repository_Registry := reg; name.repository := s |}
                       end
                   end = Ok r -> strings.ContainsRune s "@" = false).
  { destruct (name.checkRepository s) eqn:Hrepo; [done|]. intros _.
    by apply checkRepository_None in Hrepo as (_ & _ & ?). }
  destruct (SplitN2_inv s name.regRepoDelimiter)
    as [[-> _]|(a & b & -> & Hs & Ha)]; [done|].
  destruct (_ || _); [|done].
  destruct (name.checkRepository b) eqn:Hrepo; [done|].
  unfold name.NewRegistry. destruct (name.checkRegistry a) eqn:Hreg; [done|]. intros _.
  apply checkRepository_None in Hrepo as (_ & _ & Hb).
  apply checkRegistry_None in Hreg as [_ Hat].
  rewrite Hs, ContainsRune_app. simpl. by rewrite Hat, Hb.
Qed.

(** [NewTag] accepts no name with an [@]. *)
Lemma NewTag_no_at s t : name.NewTag s = Ok t -> strings.ContainsRune s "@" = false.
Proof.
  unfold name.NewTag.
  pose proof (Join_Split s name.tagDelim) as Hjoin.
  pose proof (Split_nonempty s name.tagDelim) as Hparts.
  destruct (strings.Split s name.tagDelim) as [|p ps] eqn:Hsplit using rev_ind; [done|].
  clear IHps. rewrite last_last, removelast_last, length_app. simpl.
  destruct (1 <? length ps + 1)%nat eqn:Hlen; simpl.
  2:{ destruct (name.NewRepository s) eqn:Hrepo; [|done]. intros _.
      by eapply NewRepository_no_at. }
  destruct (negb _); simpl.
  2:{ destruct (name.NewRepository s) eqn:Hrepo; [|done]. intros _.
      by eapply NewRepository_no_at. }
  assert (ps <> []) as Hne.
  { intros ->. simpl in Hlen. discriminate. }
  rewrite Join_snoc in Hjoin by done.
  assert (Htag : (if negb (String.eqb p "") then name.checkTag p else None) = None ->
                 strings.ContainsRune p "@" = false).
  { destruct (String.eqb_spec p "") as [->|_]; simpl; [done|].
    by intros (_ & _ & _ & ?)%checkTag_None. }
  destruct (if negb (String.eqb p "") then name.checkTag p else None); [done|].
  destruct (name.NewRepository _) eqn:Hrepo; [|done]. intros _.
  apply NewRepository_no_at in Hrepo.
  rewrite <- Hjoin, ContainsRune_app. simpl. by rewrite Hrepo, Htag.
Qed.

Lemma NewTag_Tag_Name t :
  wfRepository (name.Tag_Repository t) -> name.checkTag (name.tag t) = None ->
  String.length (name.RepositoryStr (name.Tag_Repository t)) <= 255 ->
  name.NewTag (name.Tag_Name t)
  = Ok {| name.Tag_Repository := canonicalRepository (name.Tag_Repository t);
          name.tag := name.tag t;
          name.Tag_original := name.Tag_Name t |}.
Proof.
  intros Hwf Htag Hlen.
  pose proof (checkTag_None _ Htag) as (Hne & Hcolon & Hslash & _).
  unfold name.Tag_Name, name.TagStr, name.tagDelim.
  by rewrite NewTag_eq, Htag, NewRepository_Name.
Qed.

Lemma NewDigest_Digest_Name d :
  wfRepository (name.Digest_Repository d) -> name.checkDigest (name.digest d) = None ->
  String.length (name.RepositoryStr (name.Digest_Repository d)) <= 255 ->
  name.NewDigest (name.Digest_Name d)
  = Ok {| name.Digest_Repository := canonicalRepository (name.Digest_Repository d);
          name.digest := name.digest d;
          name.Digest_original := name.Digest_Name d |}.
Proof.
  intros Hwf Hdig Hlen.
  pose proof (NewRepository_Name _ Hwf Hlen) as Hrepo.
  pose proof (NewRepository_no_at _ _ Hrepo) as Hat.
  pose proof (checkDigest_None _ Hdig) as [Hdat _].
  pose proof (RepositoryStr_chars _ Hwf) as [Hchars _].
  assert (Hcolon : strings.ContainsRune (name.RepositoryStr (name.Digest_Repository d)) ":"
                   = false) by (by eapply allBytes_ContainsRune).
  unfold name.NewDigest, name.Digest_Name, name.DigestStr, name.digestDelim.
  rewrite Split_app_sep, !Split_nosep by done. simpl. rewrite Hdig.
  rewrite (Repository_Name_eq _ Hwf) at 1.
  rewrite NewTag_notag by done. rewrite <- (Repository_Name_eq _ Hwf), Hrepo. simpl.
  by rewrite Repository_Name_canonical, Hrepo.
Qed.

Lemma canonical_idem x : wfReference x -> canonical (canonical x) = canonical x.
Proof.
  intros [Hwf _].
  assert (Hrepo : forall r, canonicalRepository (canonicalRepository r)
                            = canonicalRepository r).
  { intros r. unfold canonicalRepository at 1. simpl. by rewrite RepositoryStr_canonical. }
  destruct x as [t|d]; simpl in *; rewrite Hrepo; f_equal; f_equal.
  - unfold name.Tag_Name. simpl. by rewrite Repository_Name_canonical.
  - unfold name.Digest_Name. simpl. by rewrite Repository_Name_canonical.
Qed.

Lemma canonical_wf x :
  wfReference x -> String.length (name.RepositoryStr (name.Context x)) <= 255 ->
  wfReference (canonical x).
Proof.
  intros [[Hreg Hrepo] Hid] Hlen.
  destruct x as [t|d]; simpl in *; (split; [split; [done|]|done]);
    simpl; by apply RepositoryStr_valid.
Qed.

(** Printing a well-formed reference and parsing the text gives its
    canonical form. *)
Lemma ParseReference_Name x :
  wfReference x -> String.length (name.RepositoryStr (name.Context x)) <= 255 ->
  name.ParseReference (name.Name x) = Ok (canonical x).
Proof.
  intros [Hwf Hid] Hlen. unfold name.ParseReference.
  destruct x as [t|d]; simpl in *.
  - by rewrite NewTag_Tag_Name.
  - destruct (name.NewTag (name.Digest_Name d)) as [t|] eqn:Htag.
    { apply NewTag_no_at in Htag. unfold name.Digest_Name, name.digestDelim in Htag.
      rewrite ContainsRune_app in Htag. simpl in Htag. by rewrite orb_true_r in Htag. }
    by rewrite NewDigest_Digest_Name.
Qed.

(** C4, as amended.  For every string that parses to a reference whose
    repository path, as printed, has at most 255 characters: the printed
    form of the reference parses again, to the same registry, repository
    path and identifier, and it prints the same; the reference so obtained is
    reproduced exactly by printing and parsing.  Every reference that some
    string parses to is covered. *)
Theorem parse_serialize_roundtrip s x :
  name.ParseReference s = Ok x ->
  String.length (name.RepositoryStr (name.Context x)) <= 255 ->
  exists y,
    name.ParseReference (name.Name x) = Ok y
    /\ imageReference y = imageReference x
    /\ name.Name y = name.Name x
    /\ name.ParseReference (name.Name y) = Ok y.
Proof.
  intros Hparse Hlen. apply ParseReference_wf in Hparse as Hwf.
  exists (canonical x).
  assert (Hstr : name.RepositoryStr (name.Context (canonical x))
                 = name.RepositoryStr (name.Context x)).
  { destruct x; apply RepositoryStr_canonical. }
  assert (Hname : name.Name (canonical x) = name.Name x).
  { destruct Hwf as [Hrepo _].
    destruct x as [t|d]; simpl in *.
    - unfold name.Tag_Name. simpl. by rewrite Repository_Name_canonical.
    - unfold name.Digest_Name. simpl. by rewrite Repository_Name_canonical. }
  split; [by apply ParseReference_Name|]. split; [|split; [done|]].
  - unfold imageReference. rewrite Hstr. by destruct x.
  - rewrite ParseReference_Name.
    + by rewrite canonical_idem.
    + by apply canonical_wf.
    + by rewrite Hstr.
Qed.

Lemma parse_serialize_roundtrip_witness :
  name.ParseReference "nginx" = Ok nginxLatest
  /\ exists y,
       name.ParseReference "index.docker.io/library/nginx:latest" = Ok y
       /\ imageReference y = imageReference nginxLatest
       /\ name.Name y = "index.docker.io/library/nginx:latest"
       /\ name.ParseReference (name.Name y) = Ok y.
Proof.
  split; [reflexivity|].
  apply (parse_serialize_roundtrip "nginx" nginxLatest eq_refl).
  vm_compute. lia.
Defined.

(** Counterexample to C4: the name of 250 letters [a] parses, to a Docker Hub
    library image, and the printed form of that reference, with [library/]
    in front of the 250 letters, does not parse. *)
Lemma parse_serialize_counterexample :
  name.ParseReference longLibraryImage = Ok longLibraryRef
  /\ String.length (name.RepositoryStr (name.Context longLibraryRef)) = 258
  /\ name.ParseReference (name.Name longLibraryRef)
     = Err (ErrBadName "could not parse reference" (name.Name longLibraryRef)).
Proof. by vm_compute. Qed.

(** ** Containers that are mirrored already *)

Lemma setDeploymentTemplate_same d :
  setDeploymentTemplate (appsv1.Deployment_Template (appsv1.Deployment_Spec d)) d = d.
Proof. by destruct d as [m [r t p]]. Qed.

Lemma setDaemonSetTemplate_same d :
  setDaemonSetTemplate (appsv1.DaemonSet_Template (appsv1.DaemonSet_Spec d)) d = d.
Proof. by destruct d as [m [t p]]. Qed.

(** The test of the loop on a parsed reference, when the backup registry was
    made without the insecure option, compares the registry names. *)
Lemma registry_test_is_authority_equality s src backup :
  name.ParseReference s = Ok src -> name.insecure backup = false ->
  name.Repository_Registry (name.Context src) = backup
  <-> name.RegistryStr (name.Repository_Registry (name.Context src))
      = name.RegistryStr backup.
Proof.
  intros [[(Hins & _) _] _]%ParseReference_wf Hback.
  destruct (name.Repository_Registry (name.Context src)) as [ins reg], backup as [ins' reg'].
  simpl in *. subst. split; [by intros [= ->]|by intros ->].
Qed.

(** C3.  A container whose image parses to a reference with the backup
    registry as registry is skipped: its iteration of the loop is the rest of
    the loop, whatever run it is part of leaves it as it is, and every
    transfer of that run is for another container, one outside the backup
    registry.  The registries are compared as registries: for a backup
    registry made without the insecure option that is equality of the
    authority, whatever the image text looks like.  An attempt on a workload
    of either kind whose containers are all mirrored already returns no
    error and leaves the world as it was: no transfer, no patch. *)
Theorem already_mirrored_is_skipped c env container
    (Hmirrored : alreadyMirrored c container) :
  (forall i rest template w,
     rangeContainers c env i (container :: rest) template w
     = rangeContainers c env (S i) rest template w)
  /\ (forall template w r template' w' j,
        reconcilePodTemplate c env template w = (r, template', w') ->
        corev1.Containers (corev1.Spec template) !! j = Some container ->
        corev1.Containers (corev1.Spec template') !! j = Some container
        /\ forall p, p ∈ drop (length (transfers w)) (transfers w') ->
             exists other, other ∈ corev1.Containers (corev1.Spec template)
               /\ transferFor c other p /\ ~ alreadyMirrored c other)
  /\ (forall s src, name.ParseReference s = Ok src ->
        name.insecure (BackupRegistry c) = false ->
        name.Repository_Registry (name.Context src) = BackupRegistry c
        <-> name.RegistryStr (name.Repository_Registry (name.Context src))
            = name.RegistryStr (BackupRegistry c))
  /\ (forall req w fetched,
        Get_Deployment env (Request_NamespacedName req) w = Ok fetched ->
        Forall (alreadyMirrored c)
          (corev1.Containers
             (corev1.Spec (appsv1.Deployment_Template (appsv1.Deployment_Spec fetched)))) ->
        ReconcileDeployment c env req w = ((mkResult false 0, None), w))
  /\ (forall req w fetched,
        Get_DaemonSet env (Request_NamespacedName req) w = Ok fetched ->
        Forall (alreadyMirrored c)
          (corev1.Containers
             (corev1.Spec (appsv1.DaemonSet_Template (appsv1.DaemonSet_Spec fetched)))) ->
        ReconcileDaemonSet c env req w = ((mkResult false 0, None), w)).
Proof.
  destruct Hmirrored as (srcImg & Hparse & Hreg).
  split; [|split; [|split; [|split]]].
  - intros. simpl. rewrite Hparse. by rewrite decide_True.
  - intros template w r template' w' j Hrun Hj. unfold reconcilePodTemplate in Hrun. split.
    + destruct (rangeContainers_lookup _ _ _ _ _ _ _ _ _ Hrun (fun k => eq_refl) j
                  container Hj) as [Hsame|(src & dst & Hfor & _)]; [done|].
      destruct Hfor as (srcImg' & dstImg & Hparse' & Hdiff & _).
      rewrite Hparse in Hparse'. injection Hparse' as <-. done.
    + intros p Hp.
      destruct (rangeContainers_transfers _ _ _ _ _ _ _ _ _ Hrun) as (ts & Hts & Hall).
      rewrite Hts, drop_app_length in Hp.
      rewrite Forall_forall in Hall. destruct (Hall p Hp) as (other & Hin & Hfor).
      exists other. repeat split; trivial.
      intros (src1 & Hparse1 & Hreg1). destruct Hfor as (src2 & dst2 & Hparse2 & Hdiff & _).
      rewrite Hparse1 in Hparse2. injection Hparse2 as <-. done.
  - intros. by eapply registry_test_is_authority_equality.
  - intros req w fetched Hget Hall. unfold ReconcileDeployment, reconcilePodTemplate.
    rewrite Hget, rangeContainers_all_mirrored by done.
    rewrite setDeploymentTemplate_same. by rewrite bool_decide_eq_true_2.
  - intros req w fetched Hget Hall. unfold ReconcileDaemonSet, reconcilePodTemplate.
    rewrite Hget, rangeContainers_all_mirrored by done.
    rewrite setDaemonSetTemplate_same. by rewrite bool_decide_eq_true_2.
Qed.

Lemma mirroredNginx_mirrored : alreadyMirrored sampleController mirroredNginx.
Proof. eexists. split; [vm_compute; reflexivity|reflexivity]. Defined.

Lemma already_mirrored_is_skipped_witness :
  alreadyMirrored sampleController mirroredNginx
  /\ ReconcileDeployment sampleController calm webRequest (worldWith [mirroredNginx])
     = ((mkResult false 0, None), worldWith [mirroredNginx])
  /\ ReconcileDaemonSet sampleController calm webRequest (worldWith [mirroredNginx])
     = ((mkResult false 0, None), worldWith [mirroredNginx]).
Proof.
  split; [exact mirroredNginx_mirrored|].
  destruct (already_mirrored_is_skipped sampleController calm mirroredNginx
              mirroredNginx_mirrored) as (_ & _ & _ & Hdeployment & HdaemonSet).
  split.
  - apply (Hdeployment webRequest (worldWith [mirroredNginx])
             (sampleDeployment [mirroredNginx]) eq_refl).
    constructor; [exact mirroredNginx_mirrored|constructor].
  - apply (HdaemonSet webRequest (worldWith [mirroredNginx])
             (sampleDaemonSet [mirroredNginx]) eq_refl).
    constructor; [exact mirroredNginx_mirrored|constructor].
Defined.

(** The test is not a prefix test on the image text.  With Docker Hub as
    backup registry the image [nginx] is mirrored already, although its text
    does not start with the registry name; with a backup registry named
    [localhost] the image [localhost/nginx] is an image on Docker Hub,
    although its text starts with the registry name. *)
Example skip_is_not_a_prefix_test :
  alreadyMirrored {| BackupRegistry := dockerHub; PodNamespace := "" |}
    (sampleContainer "a" "nginx")
  /\ strings.HasPrefix "nginx" "index.docker.io/" = false
  /\ ~ alreadyMirrored localhostController (sampleContainer "a" "localhost/nginx")
  /\ strings.HasPrefix "localhost/nginx" "localhost/" = true.
Proof.
  split; [|split; [done|split; [|done]]].
  - eexists. split; [vm_compute; reflexivity|reflexivity].
  - intros (src & Hparse & Hreg). vm_compute in Hparse. injection Hparse as <-.
    discriminate.
Qed.

(** ** The namespace filter *)

Lemma SetupWithManager_elem c ns :
  ns ∈ SetupWithManager c ignoredNamespaces
  <-> ns = "kube-system" \/ ns = "local-path-storage" \/ ns = "registry"
      \/ (PodNamespace c <> "" /\ ns = PodNamespace c).
Proof.
  unfold SetupWithManager, ignoredNamespaces, metav1.NamespaceSystem, RegistryNamespace.
  destruct (String.eqb_spec (PodNamespace c) "") as [Hempty|Hset]; simpl.
  - rewrite !elem_of_union, !elem_of_singleton. tauto.
  - rewrite !elem_of_union, !elem_of_singleton. intuition congruence.
Qed.

(** C8.  Once [SetupWithManager] has run on the initial set, the ignored
    namespaces are [kube-system], [local-path-storage], [registry] and, when
    the controller's own namespace is set, that namespace, and no other; the
    predicate, a function of the object's namespace and that set alone,
    accepts an object exactly when its namespace is not one of them. *)
Theorem namespace_filter_spec c obj :
  SetupWithManager c ignoredNamespaces
  = {[ "kube-system"; "registry"; "local-path-storage" ]}
    ∪ (if decide (PodNamespace c = "") then ∅ else {[ PodNamespace c ]})
  /\ (namespacePredicate (SetupWithManager c ignoredNamespaces) obj = true
      <-> metav1.Namespace obj ∉ SetupWithManager c ignoredNamespaces)
  /\ (namespacePredicate (SetupWithManager c ignoredNamespaces) obj = true
      <-> ~ (metav1.Namespace obj = "kube-system"
             \/ metav1.Namespace obj = "local-path-storage"
             \/ metav1.Namespace obj = "registry"
             \/ (PodNamespace c <> "" /\ metav1.Namespace obj = PodNamespace c))).
Proof.
  assert (Hpred : namespacePredicate (SetupWithManager c ignoredNamespaces) obj = true
                  <-> metav1.Namespace obj ∉ SetupWithManager c ignoredNamespaces).
  { unfold namespacePredicate. rewrite negb_true_iff, bool_decide_eq_false. done. }
  split; [|split; [done|]].
  - apply set_eq. intros ns. rewrite SetupWithManager_elem.
    destruct (decide (PodNamespace c = "")) as [Hempty|Hset];
      rewrite !elem_of_union, !elem_of_singleton, ?elem_of_empty; tauto.
  - rewrite Hpred. by rewrite SetupWithManager_elem.
Qed.

(** ** Further facts about the rewrite *)

(** A run over containers one of which has an image that does not parse
    fails, at that container or before it. *)
Lemma unparseable_image_fails c env cs : forall i template w container,
  container ∈ cs ->
  isOk (name.ParseReference (corev1.Image container)) = false ->
  exists err template' w', rangeContainers c env i cs template w = (Some err, template', w').
Proof.
  induction cs as [|x rest IH]; intros i template w container Hin Hbad.
  { by apply elem_of_nil in Hin. }
  simpl. destruct (name.ParseReference (corev1.Image x)) as [srcImg|perr] eqn:Hparse.
  2:{ by eexists _, _, _. }
  assert (Hrest : container ∈ rest).
  { apply elem_of_cons in Hin as [->|Hin]; [|done]. by rewrite Hparse in Hbad. }
  destruct (decide _); [by eapply IH|].
  destruct (toDestinationImage srcImg (BackupRegistry c)); [|by eexists _, _, _].
  destruct (copyOutcome env _ _ _); [by eexists _, _, _|]. by eapply IH.
Qed.

Lemma NewRegistry_wf_backup b backup :
  name.NewRegistry b = Ok backup -> hasDotOrColon (name.RegistryStr backup) = true ->
  wfRegistry backup.
Proof.
  intros Hnew Hdot. eapply NewRegistry_wf; [exact Hnew|].
  unfold name.NewRegistry in Hnew. destruct (name.checkRegistry b); [done|].
  destruct (String.eqb_spec b "") as [->|_]; [by left|].
  destruct (String.eqb_spec b name.defaultRegistryAlias) as [->|_]; [by right|].
  injection Hnew as <-. by right.
Qed.

(** When the backup registry has a [.] or a [:] in its name, a container
    that was given the printed destination as image is mirrored already for
    every later run. *)
Lemma rewritten_container_is_mirrored c s src b dst container :
  name.ParseReference s = Ok src ->
  name.NewRegistry b = Ok (BackupRegistry c) ->
  hasDotOrColon (name.RegistryStr (BackupRegistry c)) = true ->
  toDestinationImage src (BackupRegistry c) = Ok dst ->
  alreadyMirrored c (setImage (name.Tag_Name dst) container).
Proof.
  intros Hparse Hnew Hdot Hdst.
  pose proof (NewRegistry_wf_backup _ _ Hnew Hdot) as Hback.
  apply ParseReference_wf in Hparse as Hwf.
  pose proof (destinationIdentifier_valid _ Hwf) as Htag.
  apply NewRegistry_idem in Hnew as [_ Hnew].
  rewrite toDestinationImage_eq in Hdst by done.
  destruct (name.checkRepository (destinationRepository src)) eqn:Hrepo; [done|].
  exists (canonical (name.RefTag dst)). injection Hdst as <-.
  split; [|reflexivity].
  refine (ParseReference_Name (name.RefTag _) _ _).
  - split; [split; [exact Hback|exact Hrepo]|exact Htag].
  - simpl. rewrite destinationRepository_explicit.
    by apply checkElement_None in Hrepo as [[_ ?] _].
Qed.

(** * Further properties of the controller *)

(** ** A run of the loop that succeeds *)

Lemma rangeContainers_success_lookup c env cs : forall i template w template' w',
  rangeContainers c env i cs template w = (None, template', w') ->
  (forall k, cs !! k = corev1.Containers (corev1.Spec template) !! (i + k)) ->
  forall k container, cs !! k = Some container ->
    corev1.Containers (corev1.Spec template') !! (i + k)
    = Some (rewriteContainer c container).
Proof.
  induction cs as [|container rest IH];
    intros i template w template' w' Hrun Hsnap k x Hk; [done|].
  assert (Hhead : corev1.Containers (corev1.Spec template) !! i = Some container).
  { pose proof (Hsnap 0) as H0. rewrite Nat.add_0_r in H0. by rewrite <- H0. }
  assert (Hrest : forall t0,
            (forall j, i < j -> corev1.Containers (corev1.Spec t0) !! j
                              = corev1.Containers (corev1.Spec template) !! j) ->
            forall k0, rest !! k0 = corev1.Containers (corev1.Spec t0) !! (S i + k0)).
  { intros t0 Ht0 k0. rewrite Ht0 by lia.
    replace (S i + k0) with (i + S k0) by lia. by rewrite <- (Hsnap (S k0)). }
  simpl in Hrun. unfold rewriteContainer.
  destruct k as [|k]; simpl in Hk.
  - injection Hk as <-. rewrite Nat.add_0_r.
    destruct (name.ParseReference (corev1.Image container)) as [srcImg|perr]; [|done].
    destruct (decide _) as [Hsame|Hdiff].
    { erewrite rangeContainers_outside; [exact Hhead|exact Hrun|lia]. }
    destruct (toDestinationImage srcImg (BackupRegistry c)) as [dstImg|derr]; [|done].
    destruct (copyOutcome env _ _ _) as [cerr|]; [done|].
    erewrite rangeContainers_outside; [|exact Hrun|lia].
    simpl. by rewrite list_lookup_alter_eq, Hhead.
  - replace (i + S k) with (S i + k) by lia.
    destruct (name.ParseReference (corev1.Image container)) as [srcImg|perr]; [|done].
    destruct (decide _) as [Hsame|Hdiff].
    { eapply IH; [exact Hrun|by apply Hrest|done]. }
    destruct (toDestinationImage srcImg (BackupRegistry c)) as [dstImg|derr]; [|done].
    destruct (copyOutcome env _ _ _) as [cerr|]; [done|].
    eapply IH; [exact Hrun| |done]. apply Hrest.
    intros j Hj. simpl. apply list_lookup_alter_ne. lia.
Qed.

Lemma rangeContainers_success_transfers c env cs : forall i template w template' w',
  rangeContainers c env i cs template w = (None, template', w') ->
  transfers w' = transfers w ++ flat_map (transferOf c) cs.
Proof.
  induction cs as [|container rest IH]; intros i template w template' w' Hrun;
    simpl in Hrun.
  - injection Hrun as _ <-. by rewrite app_nil_r.
  - simpl. unfold transferOf at 1.
    destruct (name.ParseReference (corev1.Image container)) as [srcImg|perr]; [|done].
    destruct (decide _) as [Hsame|Hdiff]; [by eapply IH|].
    destruct (toDestinationImage srcImg (BackupRegistry c)) as [dstImg|derr]; [|done].
    destruct (copyOutcome env _ _ _) as [cerr|]; [done|].
    apply IH in Hrun. simpl in Hrun. by rewrite Hrun, <- app_assoc.
Qed.

(** X3.  A rewrite that returns no error has done to every container, in
    order, what [rewriteContainer] says, has asked for the transfers of
    [transferOf], container after container, and for nothing else, and has
    left the rest of the template alone. *)
Theorem successful_rewrite_is_map c env template w template' w'
    (Hrun : reconcilePodTemplate c env template w = (None, template', w')) :
  template'
  = withContainers (map (rewriteContainer c) (corev1.Containers (corev1.Spec template)))
      template
  /\ transfers w'
     = transfers w ++ flat_map (transferOf c) (corev1.Containers (corev1.Spec template)).
Proof.
  split; [|by eapply rangeContainers_success_transfers].
  pose proof (rangeContainers_template _ _ _ _ _ _ _ _ _ Hrun) as (Hm & Hi & Hs & Hall).
  assert (Hcs : corev1.Containers (corev1.Spec template')
                = map (rewriteContainer c) (corev1.Containers (corev1.Spec template))).
  { apply list_eq. intros j. rewrite list_lookup_fmap.
    destruct (corev1.Containers (corev1.Spec template) !! j) as [container|] eqn:Hj; simpl.
    - exact (rangeContainers_success_lookup _ _ _ _ _ _ _ _ Hrun (fun k => eq_refl)
               j container Hj).
    - apply lookup_ge_None. apply lookup_ge_None in Hj.
      apply Forall2_length in Hall. lia. }
  destruct template' as [m' [i' cs' s']], template as [m [i0 cs s0]].
  unfold withContainers. simpl in *. by subst.
Qed.

Lemma successful_rewrite_is_map_witness :
  exists template' w',
    reconcilePodTemplate sampleController calm
      (sampleTemplate [mirroredNginx; sampleContainer "b" "redis"])
      (worldWith [mirroredNginx; sampleContainer "b" "redis"]) = (None, template', w')
    /\ corev1.Containers (corev1.Spec template')
       = [mirroredNginx;
          sampleContainer "b" "10.96.0.11:5001/index_docker_io/library/redis:latest"]
    /\ transfers w'
       = [("index.docker.io/library/redis:latest",
           "10.96.0.11:5001/index_docker_io/library/redis:latest")].
Proof.
  eexists _, _. split; [vm_compute; reflexivity|].
  destruct (successful_rewrite_is_map sampleController calm
              (sampleTemplate [mirroredNginx; sampleContainer "b" "redis"])
              (worldWith [mirroredNginx; sampleContainer "b" "redis"]) _ _ eq_refl)
    as [Ht Htr].
  split; [exact (f_equal (fun t => corev1.Containers (corev1.Spec t)) Ht)|exact Htr].
Defined.

(** ** How many transfers a run makes *)



(** ** What an attempt does to the world *)

(** X1.  When the fetch fails for a reason other than absence, the attempt
    returns that error, wrapped as an error of reading the object, and leaves
    the world exactly as it was.  This holds for both kinds of workload. *)
Theorem read_failure_is_returned c env req w :
  (forall err, Get_Deployment env (Request_NamespacedName req) w = Err err ->
     IsNotFound err = false ->
     ReconcileDeployment c env req w
     = ((mkResult false 0, Some (Errorf "error reading object: %w" [] err)), w))
  /\ (forall err, Get_DaemonSet env (Request_NamespacedName req) w = Err err ->
     IsNotFound err = false ->
     ReconcileDaemonSet c env req w
     = ((mkResult false 0, Some (Errorf "error reading object: %w" [] err)), w)).
Proof.
  split; intros err Hget Hnf.
  - unfold ReconcileDeployment. by rewrite Hget, Hnf.
  - unfold ReconcileDaemonSet. by rewrite Hget, Hnf.
Qed.

Lemma read_failure_is_returned_witness :
  ReconcileDeployment sampleController storeDown webRequest (worldWith nginxRedis)
  = ((mkResult false 0,
      Some (Errorf "error reading object: %w" [] (ErrOther "connection refused"))),
     worldWith nginxRedis).
Proof.
  exact (proj1 (read_failure_is_returned sampleController storeDown webRequest
                  (worldWith nginxRedis))
           (ErrOther "connection refused") eq_refl eq_refl).
Defined.

Lemma Patch_Deployment_effects env obj before w :
  transfers (snd (Patch_Deployment env obj before w)) = transfers w
  /\ patches (snd (Patch_Deployment env obj before w))
     = patches w ++ [mkPatchCall "Deployment" (keyOf (appsv1.Deployment_ObjectMeta obj))
                       (metav1.ResourceVersion (appsv1.Deployment_ObjectMeta before))].
Proof. unfold Patch_Deployment. repeat case_match; done. Qed.

Lemma Patch_DaemonSet_effects env obj before w :
  transfers (snd (Patch_DaemonSet env obj before w)) = transfers w
  /\ patches (snd (Patch_DaemonSet env obj before w))
     = patches w ++ [mkPatchCall "DaemonSet" (keyOf (appsv1.DaemonSet_ObjectMeta obj))
                       (metav1.ResourceVersion (appsv1.DaemonSet_ObjectMeta before))].
Proof. unfold Patch_DaemonSet. repeat case_match; done. Qed.

(** X2.  An attempt never asks for a requeue by its result, issues at most
    one patch and records at most one event, and never does both: an attempt
    that recorded an event issued no patch.  This holds for both kinds of
    workload. *)
Theorem attempt_effects_are_bounded c env req w :
  (fst (fst (ReconcileDeployment c env req w)) = mkResult false 0
   /\ ((patches (snd (ReconcileDeployment c env req w)) = patches w
        /\ exists evs, events (snd (ReconcileDeployment c env req w)) = events w ++ evs
             /\ length evs <= 1)
       \/ (events (snd (ReconcileDeployment c env req w)) = events w
           /\ exists p, patches (snd (ReconcileDeployment c env req w)) = patches w ++ [p])))
  /\ (fst (fst (ReconcileDaemonSet c env req w)) = mkResult false 0
      /\ ((patches (snd (ReconcileDaemonSet c env req w)) = patches w
           /\ exists evs, events (snd (ReconcileDaemonSet c env req w)) = events w ++ evs
                /\ length evs <= 1)
          \/ (events (snd (ReconcileDaemonSet c env req w)) = events w
              /\ exists p, patches (snd (ReconcileDaemonSet c env req w)) = patches w ++ [p]))).
Proof.
  split.
  - unfold ReconcileDeployment.
    destruct (Get_Deployment env _ w) as [fetched|gerr].
    2:{ destruct (IsNotFound gerr); (split; [done|]); left; (split; [done|]);
          exists []; (split; [by rewrite app_nil_r|simpl; lia]). }
    destruct (reconcilePodTemplate c env _ w) as [[[err|] template] w1] eqn:Hrun;
      apply rangeContainers_world in Hrun as (_ & Hev & Hp & _).
    + split; [done|]. left. simpl. split; [done|]. eexists [_].
      split; [by rewrite Hev|simpl; lia].
    + destruct (negb _).
      * pose proof (Patch_Deployment_events env (setDeploymentTemplate template fetched)
                      fetched w1) as Hpe.
        pose proof (Patch_Deployment_effects env (setDeploymentTemplate template fetched)
                      fetched w1) as [_ Hpp].
        destruct (Patch_Deployment env _ fetched w1) as [perr w2]. simpl in *.
        split; [done|]. right. rewrite Hpe, Hev, Hpp, Hp. split; [done|]. by eexists.
      * split; [done|]. left. simpl. split; [done|]. exists [].
        split; [by rewrite app_nil_r|simpl; lia].
  - unfold ReconcileDaemonSet.
    destruct (Get_DaemonSet env _ w) as [fetched|gerr].
    2:{ destruct (IsNotFound gerr); (split; [done|]); left; (split; [done|]);
          exists []; (split; [by rewrite app_nil_r|simpl; lia]). }
    destruct (reconcilePodTemplate c env _ w) as [[[err|] template] w1] eqn:Hrun;
      apply rangeContainers_world in Hrun as (_ & Hev & Hp & _).
    + split; [done|]. left. simpl. split; [done|]. eexists [_].
      split; [by rewrite Hev|simpl; lia].
    + destruct (negb _).
      * pose proof (Patch_DaemonSet_events env (setDaemonSetTemplate template fetched)
                      fetched w1) as Hpe.
        pose proof (Patch_DaemonSet_effects env (setDaemonSetTemplate template fetched)
                      fetched w1) as [_ Hpp].
        destruct (Patch_DaemonSet env _ fetched w1) as [perr w2]. simpl in *.
        split; [done|]. right. rewrite Hpe, Hev, Hpp, Hp. split; [done|]. by eexists.
      * split; [done|]. left. simpl. split; [done|]. exists [].
        split; [by rewrite app_nil_r|simpl; lia].
Qed.

Lemma setDeploymentTemplate_changed template' d :
  template' <> appsv1.Deployment_Template (appsv1.Deployment_Spec d) ->
  negb (bool_decide (d = setDeploymentTemplate template' d)) = true.
Proof.
  intros Hne. apply negb_true_iff, bool_decide_eq_false. intros Heq. apply Hne.
  apply (f_equal (fun x => appsv1.Deployment_Template (appsv1.Deployment_Spec x))) in Heq.
  by simpl in Heq.
Qed.

(** X6.  An attempt whose rewrite changed the template, on a deployment
    that is stored with the version that was read when the patch arrives, is
    committed: the attempt returns no error, the deployment is then stored
    with the rewritten template, its other fields as they were read and a new
    version, and nothing else in the store is touched by the attempt. *)
Theorem changed_template_is_committed c env req w fetched template' w1 cur :
  Get_Deployment env (Request_NamespacedName req) w = Ok fetched ->
  reconcilePodTemplate c env
    (appsv1.Deployment_Template (appsv1.Deployment_Spec fetched)) w
  = (None, template', w1) ->
  template' <> appsv1.Deployment_Template (appsv1.Deployment_Spec fetched) ->
  deployments (otherWriters env (store w)) !! keyOf (appsv1.Deployment_ObjectMeta fetched)
  = Some cur ->
  metav1.ResourceVersion (appsv1.Deployment_ObjectMeta cur)
  = metav1.ResourceVersion (appsv1.Deployment_ObjectMeta fetched) ->
  fst (ReconcileDeployment c env req w) = (mkResult false 0, None)
  /\ deployments (store (snd (ReconcileDeployment c env req w)))
       !! keyOf (appsv1.Deployment_ObjectMeta fetched)
     = Some {| appsv1.Deployment_ObjectMeta :=
                 bumpVersion (appsv1.Deployment_ObjectMeta fetched);
               appsv1.Deployment_Spec :=
                 appsv1.Deployment_Spec (setDeploymentTemplate template' fetched) |}
  /\ (forall k, k <> keyOf (appsv1.Deployment_ObjectMeta fetched) ->
        deployments (store (snd (ReconcileDeployment c env req w))) !! k
        = deployments (otherWriters env (store w)) !! k)
  /\ daemonSets (store (snd (ReconcileDeployment c env req w)))
     = daemonSets (otherWriters env (store w)).
Proof.
  intros Hget Hrun Hchanged Hcur Hversion.
  pose proof (rangeContainers_world _ _ _ _ _ _ _ _ _ Hrun) as (Hs & _).
  unfold ReconcileDeployment. rewrite Hget, Hrun.
  rewrite setDeploymentTemplate_changed by done.
  unfold Patch_Deployment. simpl. rewrite Hs, Hcur.
  rewrite decide_True by done. simpl.
  split; [done|]. split; [by rewrite lookup_insert_eq|]. split; [|done].
  intros k Hk. by rewrite lookup_insert_ne.
Qed.

Lemma changed_template_is_committed_witness :
  let w := worldWith [sampleContainer "a" "nginx"] in
  fst (ReconcileDeployment sampleController calm webRequest w) = (mkResult false 0, None)
  /\ option_map
       (fun d => (metav1.ResourceVersion (appsv1.Deployment_ObjectMeta d),
                  map corev1.Image
                    (corev1.Containers
                       (corev1.Spec (appsv1.Deployment_Template (appsv1.Deployment_Spec d))))))
       (deployments (store (snd (ReconcileDeployment sampleController calm webRequest w)))
          !! ("default", "web"))
     = Some (8, ["10.96.0.11:5001/index_docker_io/library/nginx:latest"]).
Proof.
  intros w.
  destruct (changed_template_is_committed sampleController calm webRequest w
              (sampleDeployment [sampleContainer "a" "nginx"])
              (sampleTemplate
                 [sampleContainer "a" "10.96.0.11:5001/index_docker_io/library/nginx:latest"])
              {| store := store w;
                 transfers := [("index.docker.io/library/nginx:latest",
                                "10.96.0.11:5001/index_docker_io/library/nginx:latest")];
                 events := []; patches := [] |}
              (sampleDeployment [sampleContainer "a" "nginx"])
              eq_refl eq_refl ltac:(discriminate) eq_refl eq_refl)
    as (Hres & Hstored & _).
  split; [exact Hres|].
  exact (f_equal
           (option_map
              (fun d => (metav1.ResourceVersion (appsv1.Deployment_ObjectMeta d),
                         map corev1.Image
                           (corev1.Containers
                              (corev1.Spec
                                 (appsv1.Deployment_Template (appsv1.Deployment_Spec d)))))))
           Hstored).
Defined.

(** X7.  An attempt whose rewrite changed the template, on a deployment
    that is stored with another version, or not stored any more, when the
    patch arrives, writes nothing: it returns the conflict (or the absence)
    as its error, records no event, and the store is as the other writers
    left it. *)
Theorem stale_version_is_not_overwritten c env req w fetched template' w1 :
  Get_Deployment env (Request_NamespacedName req) w = Ok fetched ->
  reconcilePodTemplate c env
    (appsv1.Deployment_Template (appsv1.Deployment_Spec fetched)) w
  = (None, template', w1) ->
  template' <> appsv1.Deployment_Template (appsv1.Deployment_Spec fetched) ->
  (forall cur,
     deployments (otherWriters env (store w)) !! keyOf (appsv1.Deployment_ObjectMeta fetched)
     = Some cur ->
     metav1.ResourceVersion (appsv1.Deployment_ObjectMeta cur)
     <> metav1.ResourceVersion (appsv1.Deployment_ObjectMeta fetched)) ->
  (snd (fst (ReconcileDeployment c env req w)) = Some StatusConflict
   \/ snd (fst (ReconcileDeployment c env req w)) = Some StatusNotFound)
  /\ store (snd (ReconcileDeployment c env req w)) = otherWriters env (store w)
  /\ events (snd (ReconcileDeployment c env req w)) = events w.
Proof.
  intros Hget Hrun Hchanged Hstale.
  pose proof (rangeContainers_world _ _ _ _ _ _ _ _ _ Hrun) as (Hs & He & _).
  unfold ReconcileDeployment. rewrite Hget, Hrun.
  rewrite setDeploymentTemplate_changed by done.
  unfold Patch_Deployment. simpl. rewrite Hs.
  destruct (deployments (otherWriters env (store w)) !! _) as [cur|] eqn:Hcur; simpl.
  - rewrite decide_False by (by apply Hstale). simpl. by split; [left|].
  - by split; [right|].
Qed.

Lemma stale_version_is_not_overwritten_witness :
  let w := worldWith [sampleContainer "a" "nginx"] in
  snd (fst (ReconcileDeployment sampleController busy webRequest w)) = Some StatusConflict
  /\ store (snd (ReconcileDeployment sampleController busy webRequest w))
     = otherWriters busy (store w).
Proof.
  intros w.
  destruct (stale_version_is_not_overwritten sampleController busy webRequest w
              (sampleDeployment [sampleContainer "a" "nginx"])
              (sampleTemplate
                 [sampleContainer "a" "10.96.0.11:5001/index_docker_io/library/nginx:latest"])
              {| store := store w;
                 transfers := [("index.docker.io/library/nginx:latest",
                                "10.96.0.11:5001/index_docker_io/library/nginx:latest")];
                 events := []; patches := [] |}
              eq_refl eq_refl ltac:(discriminate))
    as ([Hconflict|Hgone] & Hstore & _).
  - intros cur Hcur. vm_compute in Hcur. injection Hcur as <-. simpl. lia.
  - exact (conj Hconflict Hstore).
  - vm_compute in Hgone. discriminate.
Defined.

(** ** Running the rewrite and the attempt again *)

Lemma rangeContainers_success_steps c env cs : forall i template w template' w',
  rangeContainers c env i cs template w = (None, template', w') ->
  Forall (fun container => alreadyMirrored c container
                           \/ exists p, transferFor c container p) cs.
Proof.
  induction cs as [|container rest IH]; intros i template w template' w' Hrun;
    simpl in Hrun; constructor.
  - destruct (name.ParseReference (corev1.Image container)) as [srcImg|perr] eqn:Hparse;
      [|done].
    destruct (decide _) as [Hsame|Hdiff]; [left; by exists srcImg|].
    destruct (toDestinationImage srcImg (BackupRegistry c)) as [dstImg|derr] eqn:Hdst;
      [|done].
    right. eexists. by exists srcImg, dstImg.
  - destruct (name.ParseReference (corev1.Image container)) as [srcImg|perr]; [|done].
    destruct (decide _) as [Hsame|Hdiff]; [by eapply IH|].
    destruct (toDestinationImage srcImg (BackupRegistry c)) as [dstImg|derr]; [|done].
    destruct (copyOutcome env _ _ _) as [cerr|]; [done|]. by eapply IH.
Qed.

Lemma rewriteContainer_mirrored c container :
  wfRegistry (BackupRegistry c) ->
  alreadyMirrored c container \/ (exists p, transferFor c container p) ->
  alreadyMirrored c (rewriteContainer c container).
Proof.
  intros Hback [Hmirrored|(p & srcImg & dstImg & Hparse & Hdiff & Hdst & _)];
    unfold rewriteContainer.
  - destruct Hmirrored as (srcImg & Hparse & Hreg). rewrite Hparse.
    rewrite decide_True by done. by exists srcImg.
  - rewrite Hparse, decide_False, Hdst by done.
    destruct Hback as (Hins & Hcheck & Hdot & Halias).
    eapply rewritten_container_is_mirrored; [exact Hparse| |exact Hdot|exact Hdst].
    by apply NewRegistry_wf_eq.
Qed.

Lemma successful_rewrite_all_mirrored c env template w template' w' :
  wfRegistry (BackupRegistry c) ->
  reconcilePodTemplate c env template w = (None, template', w') ->
  Forall (alreadyMirrored c) (corev1.Containers (corev1.Spec template')).
Proof.
  intros Hback Hrun. unfold reconcilePodTemplate in Hrun.
  pose proof (rangeContainers_success_steps _ _ _ _ _ _ _ _ Hrun) as Hsteps.
  pose proof (rangeContainers_template _ _ _ _ _ _ _ _ _ Hrun) as (_ & _ & _ & Hall).
  apply Forall2_length in Hall.
  apply Forall_lookup. intros j container' Hj.
  destruct (corev1.Containers (corev1.Spec template) !! j) as [container|] eqn:Hj0.
  2:{ apply lookup_ge_None in Hj0. apply lookup_lt_Some in Hj. lia. }
  pose proof (rangeContainers_success_lookup _ _ _ _ _ _ _ _ Hrun (fun k => eq_refl)
                j container Hj0) as Hnew.
  simpl in Hnew. rewrite Hj in Hnew. injection Hnew as ->.
  apply rewriteContainer_mirrored; [done|].
  by eapply (proj1 (Forall_lookup _ _) Hsteps).
Qed.

(** X8.  With a backup registry whose name has a [.] or a [:], the
    template that a rewrite without error leaves behind has all its
    containers in the backup registry, so that rewriting it again, under any
    collaborators and in any world, makes no transfer and changes nothing. *)
Theorem rewrite_is_idempotent c env template w template' w' :
  wfRegistry (BackupRegistry c) ->
  reconcilePodTemplate c env template w = (None, template', w') ->
  Forall (alreadyMirrored c) (corev1.Containers (corev1.Spec template'))
  /\ forall env2 w2, reconcilePodTemplate c env2 template' w2 = (None, template', w2).
Proof.
  intros Hback Hrun.
  pose proof (successful_rewrite_all_mirrored _ _ _ _ _ _ Hback Hrun) as Hall.
  split; [done|]. intros env2 w2. by apply rangeContainers_all_mirrored.
Qed.

Lemma sampleController_wf : wfRegistry (BackupRegistry sampleController).
Proof. by repeat split. Defined.

Lemma rewrite_is_idempotent_witness :
  exists template' w',
    reconcilePodTemplate sampleController calm (sampleTemplate nginxRedis)
      (worldWith nginxRedis) = (None, template', w')
    /\ reconcilePodTemplate sampleController redisUnavailable template' w'
       = (None, template', w').
Proof.
  eexists _, _. split; [vm_compute; reflexivity|].
  exact (proj2 (rewrite_is_idempotent sampleController calm (sampleTemplate nginxRedis)
                  (worldWith nginxRedis) _ _ sampleController_wf eq_refl)
           redisUnavailable _).
Defined.

Lemma mirrored_deployment_noop c env req w fetched :
  Get_Deployment env (Request_NamespacedName req) w = Ok fetched ->
  Forall (alreadyMirrored c)
    (corev1.Containers
       (corev1.Spec (appsv1.Deployment_Template (appsv1.Deployment_Spec fetched)))) ->
  ReconcileDeployment c env req w = ((mkResult false 0, None), w).
Proof.
  intros Hget Hall. unfold ReconcileDeployment, reconcilePodTemplate.
  rewrite Hget, rangeContainers_all_mirrored by done.
  rewrite setDeploymentTemplate_same. by rewrite bool_decide_eq_true_2.
Qed.

(** X9.  With a backup registry whose name has a [.] or a [:], an attempt
    on a deployment stored under its own identity that returns no error has
    brought the deployment to rest: the next attempt, in the world the first
    one left, finds every container mirrored and leaves the world as it is:
    no transfer, no patch, no event. *)
Theorem attempt_converges c env req w fetched :
  wfRegistry (BackupRegistry c) ->
  Get_Deployment env (Request_NamespacedName req) w = Ok fetched ->
  keyOf (appsv1.Deployment_ObjectMeta fetched) = Request_NamespacedName req ->
  snd (fst (ReconcileDeployment c env req w)) = None ->
  ReconcileDeployment c env req (snd (ReconcileDeployment c env req w))
  = ((mkResult false 0, None), snd (ReconcileDeployment c env req w)).
Proof.
  intros Hback Hget Hkey Hok.
  assert (Hfault : readFault env (Request_NamespacedName req) = None).
  { unfold Get_Deployment in Hget. by destruct (readFault env _). }
  unfold ReconcileDeployment in Hok |- * at 2 3. rewrite Hget in Hok |- *.
  destruct (reconcilePodTemplate c env _ w) as [[[err|] template'] w1] eqn:Hrun;
    [done|].
  pose proof (successful_rewrite_all_mirrored _ _ _ _ _ _ Hback Hrun) as Hall.
  pose proof (rangeContainers_world _ _ _ _ _ _ _ _ _ Hrun) as (Hs & _).
  destruct (negb _) eqn:Hchanged.
  - unfold Patch_Deployment in Hok |- *. simpl in Hok |- *. rewrite Hkey in Hok |- *.
    destruct (deployments (otherWriters env (store w1)) !! _) as [cur|]; [|done].
    destruct (decide _); [|done]. simpl.
    eapply mirrored_deployment_noop;
      [unfold Get_Deployment; rewrite Hfault; simpl; by rewrite lookup_insert_eq
      |exact Hall].
  - simpl. apply negb_false_iff, bool_decide_eq_true in Hchanged.
    eapply mirrored_deployment_noop.
    + unfold Get_Deployment in Hget |- *. by rewrite Hs.
    + rewrite Hchanged. exact Hall.
Qed.

Lemma attempt_converges_witness :
  let w1 := snd (ReconcileDeployment sampleController calm webRequest (worldWith nginxRedis)) in
  length (transfers w1) = 3
  /\ ReconcileDeployment sampleController calm webRequest w1 = ((mkResult false 0, None), w1).
Proof.
  intros w1. split; [reflexivity|].
  exact (attempt_converges sampleController calm webRequest (worldWith nginxRedis)
           (sampleDeployment nginxRedis) sampleController_wf eq_refl eq_refl eq_refl).
Defined.

Lemma transferOf_changes_image c container :
  wfRegistry (BackupRegistry c) ->
  transferOf c container <> [] -> rewriteContainer c container <> container.
Proof.
  intros Hback Htransfer Hsame. unfold transferOf in Htransfer.
  destruct (name.ParseReference (corev1.Image container)) as [srcImg|] eqn:Hparse;
    [|done].
  destruct (decide _) as [|Hdiff]; [done|].
  destruct (toDestinationImage srcImg (BackupRegistry c)) as [dstImg|] eqn:Hdst; [|done].
  assert (Hmirrored : alreadyMirrored c (rewriteContainer c container)).
  { apply rewriteContainer_mirrored; [done|]. right. eexists. by exists srcImg, dstImg. }
  rewrite Hsame in Hmirrored. destruct Hmirrored as (src' & Hparse' & Hreg).
  rewrite Hparse in Hparse'. injection Hparse' as <-. done.
Qed.

(** X10.  With a backup registry whose name has a [.] or a [:], an attempt
    whose rewrite returned no error and made a transfer always goes on to
    the commit: it issues one patch, for the fetched deployment and
    conditioned on the version that was read. *)
Theorem transfer_is_followed_by_patch c env req w fetched template' w1 :
  wfRegistry (BackupRegistry c) ->
  Get_Deployment env (Request_NamespacedName req) w = Ok fetched ->
  reconcilePodTemplate c env
    (appsv1.Deployment_Template (appsv1.Deployment_Spec fetched)) w
  = (None, template', w1) ->
  transfers w1 <> transfers w ->
  patches (snd (ReconcileDeployment c env req w))
  = patches w ++ [mkPatchCall "Deployment" (keyOf (appsv1.Deployment_ObjectMeta fetched))
                    (metav1.ResourceVersion (appsv1.Deployment_ObjectMeta fetched))].
Proof.
  intros Hback Hget Hrun Htransfers.
  pose proof (rangeContainers_world _ _ _ _ _ _ _ _ _ Hrun) as (_ & _ & Hp & _).
  assert (Hchanged : template'
                     <> appsv1.Deployment_Template (appsv1.Deployment_Spec fetched)).
  { intros ->. apply Htransfers.
    unfold reconcilePodTemplate in Hrun.
    rewrite (rangeContainers_success_transfers _ _ _ _ _ _ _ _ Hrun).
    assert (Hnone : forall j container,
              corev1.Containers
                (corev1.Spec (appsv1.Deployment_Template (appsv1.Deployment_Spec fetched)))
                !! j = Some container -> transferOf c container = []).
    { intros j container Hj.
      pose proof (rangeContainers_success_lookup _ _ _ _ _ _ _ _ Hrun (fun k => eq_refl)
                    j container Hj) as Hnew.
      simpl in Hnew. rewrite Hj in Hnew. injection Hnew as Hsame.
      destruct (transferOf c container) eqn:Ht; [done|].
      exfalso. eapply transferOf_changes_image; [exact Hback| |symmetry; exact Hsame].
      by rewrite Ht. }
    revert Hnone. generalize (corev1.Containers
      (corev1.Spec (appsv1.Deployment_Template (appsv1.Deployment_Spec fetched)))).
    intros cs Hnone. rewrite <- (app_nil_r (transfers w)) at 2. f_equal.
    induction cs as [|x cs IH]; [done|]. simpl.
    rewrite (Hnone 0 x eq_refl). simpl. apply IH.
    intros j container Hj. by apply (Hnone (S j)). }
  unfold ReconcileDeployment. rewrite Hget, Hrun.
  rewrite setDeploymentTemplate_changed by done.
  pose proof (Patch_Deployment_effects env (setDeploymentTemplate template' fetched)
                fetched w1) as [_ Hpp].
  destruct (Patch_Deployment env _ fetched w1) as [perr w2]. simpl in *.
  by rewrite Hpp, Hp.
Qed.

Lemma transfer_is_followed_by_patch_witness :
  patches (snd (ReconcileDeployment sampleController busy webRequest
                  (worldWith [sampleContainer "a" "nginx"])))
  = [mkPatchCall "Deployment" ("default", "web") 7].
Proof.
  exact (transfer_is_followed_by_patch sampleController busy webRequest
           (worldWith [sampleContainer "a" "nginx"])
           (sampleDeployment [sampleContainer "a" "nginx"])
           (sampleTemplate
              [sampleContainer "a" "10.96.0.11:5001/index_docker_io/library/nginx:latest"])
           {| store := store (worldWith [sampleContainer "a" "nginx"]);
              transfers := [("index.docker.io/library/nginx:latest",
                             "10.96.0.11:5001/index_docker_io/library/nginx:latest")];
              events := []; patches := [] |}
           sampleController_wf eq_refl eq_refl ltac:(discriminate)).
Defined.

(** X11.  Whatever an attempt on a deployment does, the store it leaves is
    the store it found, or the store as the other writers left it with at
    most the fetched deployment replaced: no daemon set and no other
    deployment is written by the attempt.  The same holds, with the kinds
    exchanged, for an attempt on a daemon set. *)
Theorem attempt_writes_one_object_at_most c env req w :
  (store (snd (ReconcileDeployment c env req w)) = store w
   \/ exists fetched,
        Get_Deployment env (Request_NamespacedName req) w = Ok fetched
        /\ daemonSets (store (snd (ReconcileDeployment c env req w)))
           = daemonSets (otherWriters env (store w))
        /\ forall k, k <> keyOf (appsv1.Deployment_ObjectMeta fetched) ->
             deployments (store (snd (ReconcileDeployment c env req w))) !! k
             = deployments (otherWriters env (store w)) !! k)
  /\ (store (snd (ReconcileDaemonSet c env req w)) = store w
      \/ exists fetched,
           Get_DaemonSet env (Request_NamespacedName req) w = Ok fetched
           /\ deployments (store (snd (ReconcileDaemonSet c env req w)))
              = deployments (otherWriters env (store w))
           /\ forall k, k <> keyOf (appsv1.DaemonSet_ObjectMeta fetched) ->
                daemonSets (store (snd (ReconcileDaemonSet c env req w))) !! k
                = daemonSets (otherWriters env (store w)) !! k).
Proof.
  split.
  - unfold ReconcileDeployment.
    destruct (Get_Deployment env _ w) as [fetched|gerr] eqn:Hget.
    2:{ left. by destruct (IsNotFound gerr). }
    destruct (reconcilePodTemplate c env _ w) as [[[err|] template] w1] eqn:Hrun;
      apply rangeContainers_world in Hrun as (Hs & _); [by left|].
    destruct (negb _); [|by left].
    right. exists fetched. split; [done|].
    unfold Patch_Deployment. simpl. rewrite Hs.
    destruct (deployments (otherWriters env (store w)) !! _) as [cur|]; [|done].
    destruct (decide _); [|done]. simpl. split; [done|].
    intros k Hk. by rewrite lookup_insert_ne.
  - unfold ReconcileDaemonSet.
    destruct (Get_DaemonSet env _ w) as [fetched|gerr] eqn:Hget.
    2:{ left. by destruct (IsNotFound gerr). }
    destruct (reconcilePodTemplate c env _ w) as [[[err|] template] w1] eqn:Hrun;
      apply rangeContainers_world in Hrun as (Hs & _); [by left|].
    destruct (negb _); [|by left].
    right. exists fetched. split; [done|].
    unfold Patch_DaemonSet. simpl. rewrite Hs.
    destruct (daemonSets (otherWriters env (store w)) !! _) as [cur|]; [|done].
    destruct (decide _); [|done]. simpl. split; [done|].
    intros k Hk. by rewrite lookup_insert_ne.
Qed.

(** ** The ignored namespaces *)

(** X12.  [SetupWithManager] only ever adds to the ignored namespaces: what
    was ignored stays ignored, so no object becomes eligible by it; with an
    empty namespace of its own it adds nothing; running it twice is running
    it once, and two controllers can run it in either order.  After it has
    run, on whatever set, objects in the controller's own non-empty
    namespace are not eligible. *)
Theorem SetupWithManager_only_adds c c' (ignored : gset string) obj :
  ignored ⊆ SetupWithManager c ignored
  /\ (namespacePredicate (SetupWithManager c ignored) obj = true ->
      namespacePredicate ignored obj = true)
  /\ (PodNamespace c = "" -> SetupWithManager c ignored = ignored)
  /\ SetupWithManager c (SetupWithManager c ignored) = SetupWithManager c ignored
  /\ SetupWithManager c (SetupWithManager c' ignored)
     = SetupWithManager c' (SetupWithManager c ignored)
  /\ (PodNamespace c <> "" -> metav1.Namespace obj = PodNamespace c ->
      namespacePredicate (SetupWithManager c ignored) obj = false).
Proof.
  assert (Helem : forall d s ns,
            ns ∈ SetupWithManager d s <-> (PodNamespace d <> "" /\ ns = PodNamespace d) \/ ns ∈ s).
  { intros d s ns. unfold SetupWithManager.
    destruct (String.eqb_spec (PodNamespace d) ""); simpl.
    - tauto.
    - rewrite elem_of_union, elem_of_singleton. tauto. }
  split; [|split; [|split; [|split; [|split]]]].
  - intros ns Hns. apply Helem. by right.
  - unfold namespacePredicate. rewrite !negb_true_iff, !bool_decide_eq_false.
    intros Hnot Hin. apply Hnot, Helem. by right.
  - intros Hempty. unfold SetupWithManager. by rewrite Hempty.
  - apply set_eq. intros ns. rewrite !Helem. tauto.
  - apply set_eq. intros ns. rewrite !Helem. tauto.
  - intros Hset Hns. unfold namespacePredicate.
    rewrite negb_false_iff, bool_decide_eq_true. apply Helem. by left.
Qed.

(** ** The replacer of registry names *)

(** X13.  [registryReplacer] leaves no [.] and no [:] in a registry name,
    keeps its length, keeps a name without [.] and [:] as it is, and
    replacing twice is replacing once. *)
Theorem registryReplacer_removes_dots_and_colons (s : string) :
  strings.ContainsRune (strings.Replace registryReplacer s) "." = false
  /\ strings.ContainsRune (strings.Replace registryReplacer s) ":" = false
  /\ String.length (strings.Replace registryReplacer s) = String.length s
  /\ (strings.ContainsRune s "." = false -> strings.ContainsRune s ":" = false ->
      strings.Replace registryReplacer s = s)
  /\ strings.Replace registryReplacer (strings.Replace registryReplacer s)
     = strings.Replace registryReplacer s.
Proof.
  assert (Hcons : forall x t,
            strings.Replace registryReplacer (String x t)
            = String (if Ascii.eqb x "." then "_"%char
                      else if Ascii.eqb x ":" then "_"%char else x)
                (strings.Replace registryReplacer t)) by done.
  induction s as [|x s (IHdot & IHcolon & IHlen & IHkeep & IHidem)]; [done|].
  rewrite !Hcons.
  destruct (Ascii.eqb_spec x ".") as [->|Hdot];
    [|destruct (Ascii.eqb_spec x ":") as [->|Hcolon]].
  - simpl. rewrite IHdot, IHcolon, IHlen, IHidem.
    repeat split; trivial; discriminate.
  - simpl. rewrite IHdot, IHcolon, IHlen, IHidem.
    repeat split; trivial; discriminate.
  - cbn [strings.ContainsRune String.length].
    destruct (Ascii.eqb_spec x ".") as [|_]; [done|].
    destruct (Ascii.eqb_spec x ":") as [|_]; [done|].
    simpl. rewrite IHdot, IHcolon, IHlen, IHidem. repeat split; trivial.
    intros ? ?. by rewrite IHkeep.
Qed.

(** ** Destinations that coincide, destinations that go astray *)

(** X14.  The destination does not tell a digest from a tag.  For every
    image that parses to a digest reference (with a printed repository path
    of at most 255 characters), the image in the same repository whose tag
    is the digest with [:] replaced by [_] parses as well, to a tag
    reference, and has the same destination in every backup registry. *)
Theorem digest_and_tag_share_destination s d :
  name.ParseReference s = Ok (name.RefDigest d) ->
  String.length (name.RepositoryStr (name.Digest_Repository d)) <= 255 ->
  exists t,
    name.ParseReference
      (name.Repository_Name (name.Digest_Repository d)
       +:+ ":" +:+ strings.ReplaceAll (name.DigestStr d) ":" "_")
    = Ok (name.RefTag t)
    /\ forall backup,
         toDestinationImage (name.RefTag t) backup
         = toDestinationImage (name.RefDigest d) backup.
Proof.
  intros [Hrepo Hdig]%ParseReference_wf Hlen. simpl in Hrepo, Hdig.
  pose (t0 := {| name.Tag_Repository := name.Digest_Repository d;
                 name.tag := strings.ReplaceAll (name.DigestStr d) ":" "_";
                 name.Tag_original := "" |}).
  pose proof (NewTag_Tag_Name t0 Hrepo (checkDigest_as_tag _ Hdig) Hlen) as Hnew.
  eexists. split.
  - unfold name.ParseReference.
    change (name.Repository_Name (name.Digest_Repository d)
            +:+ ":" +:+ strings.ReplaceAll (name.DigestStr d) ":" "_")
      with (name.Tag_Name t0).
    by rewrite Hnew.
  - intros backup. unfold toDestinationImage. simpl.
    by rewrite RepositoryStr_canonical.
Qed.

Lemma digest_and_tag_share_destination_witness :
  exists t,
    name.ParseReference
      "index.docker.io/library/nginx:sha256_33cef0ff00000000000000000000000000000000000000000000000000000000"
    = Ok (name.RefTag t)
    /\ toDestinationImage (name.RefTag t) (BackupRegistry sampleController)
       = toDestinationImage (name.RefDigest nginxByDigest) (BackupRegistry sampleController).
Proof.
  destruct (digest_and_tag_share_destination ("nginx@" +:+ nginxDigest) nginxByDigest
              eq_refl ltac:(vm_compute; lia)) as (t & Hparse & Hsame).
  exists t. exact (conj Hparse (Hsame _)).
Defined.

Lemma NewRepository_eq_plain reg repo :
  strings.ContainsRune reg "/" = false -> hasDotOrColon reg = false ->
  name.NewRepository (reg +:+ String "/" repo)
  = match name.checkRepository (reg +:+ String "/" repo) with
    | Some e => Err e
    | None =>
        Ok {| name.Repository_Registry :=
                {| name.insecure := false; name.registry := name.DefaultRegistry |};
              name.repository := reg +:+ String "/" repo |}
    end.
Proof.
  intros Hslash Hdot. unfold name.NewRepository.
  destruct (String.eqb_spec (reg +:+ String "/" repo) "") as [Hempty|_].
  { destruct reg; discriminate. }
  unfold name.regRepoDelimiter. rewrite SplitN2_app by done.
  fold (hasDotOrColon reg). rewrite Hdot.
  by destruct (name.checkRepository _).
Qed.

(** X15.  With a backup registry made by [NewRegistry] whose name has
    neither a [.] nor a [:], every destination that [toDestinationImage]
    returns for a parsed source is in the registry [index.docker.io], with
    the name of the backup registry as first segment of its repository path;
    it is not in the backup registry, and a container that is given the
    printed destination as image is never found to be mirrored. *)
Theorem plain_backup_name_goes_to_docker_hub c s src b dst container :
  name.ParseReference s = Ok src ->
  name.NewRegistry b = Ok (BackupRegistry c) ->
  hasDotOrColon (name.RegistryStr (BackupRegistry c)) = false ->
  toDestinationImage src (BackupRegistry c) = Ok dst ->
  name.Repository_Registry (name.Tag_Repository dst) = dockerHub
  /\ name.repository (name.Tag_Repository dst)
     = name.RegistryStr (BackupRegistry c) +:+ "/" +:+ destinationRepository src
  /\ name.Repository_Registry (name.Tag_Repository dst) <> BackupRegistry c
  /\ ~ alreadyMirrored c (setImage (name.Tag_Name dst) container).
Proof.
  intros Hparse Hnew Hdot Hdst.
  apply ParseReference_wf in Hparse as Hwf.
  pose proof (destinationIdentifier_valid _ Hwf) as Htag.
  pose proof (checkTag_None _ Htag) as (Hne & Hcolon & Hnoslash & _).
  apply NewRegistry_idem in Hnew as [_ Hnew].
  assert (Hslash : strings.ContainsRune (name.registry (BackupRegistry c)) "/" = false).
  { unfold name.NewRegistry in Hnew.
    destruct (name.checkRegistry (name.registry (BackupRegistry c))) eqn:Hcheck; [done|].
    by apply checkRegistry_None in Hcheck as [? _]. }
  assert (Hother : dockerHub <> BackupRegistry c).
  { intros Heq. rewrite <- Heq in Hdot. discriminate. }
  unfold toDestinationImage in Hdst.
  replace (match src with
           | name.RefTag _ => name.Identifier src
           | name.RefDigest digest => strings.ReplaceAll (name.DigestStr digest) ":" "_"
           end) with (destinationIdentifier src) in Hdst by (by destruct src).
  fold (sanitize (name.RegistryStr (name.Repository_Registry (name.Context src)))) in Hdst.
  fold (destinationRepository src) in Hdst.
  rewrite name_shape, NewTag_eq, Htag in Hdst by done.
  unfold name.RegistryStr in Hdst, Hdot |- *.
  rewrite NewRepository_eq_plain in Hdst by done.
  destruct (name.checkRepository _) eqn:Hrepo; [done|].
  injection Hdst as Hdst.
  assert (Hreparse : name.ParseReference (name.Tag_Name dst)
                     = Ok (canonical (name.RefTag dst))).
  { apply (ParseReference_Name (name.RefTag dst)); rewrite <- Hdst.
    - split; [split; [apply DefaultRegistry_wf|exact Hrepo]|exact Htag].
    - simpl. unfold name.RepositoryStr, name.hasImplicitNamespace. simpl.
      rewrite ContainsRune_app. simpl. rewrite orb_true_r. simpl.
      by apply checkElement_None in Hrepo as [[_ ?] _]. }
  split; [by rewrite <- Hdst|]. split; [by rewrite <- Hdst|].
  split; [by rewrite <- Hdst|].
  intros (src' & Hparse' & Hreg).
  change (name.ParseReference (name.Tag_Name dst) = Ok src') in Hparse'.
  rewrite Hreparse in Hparse'. injection Hparse' as <-.
  rewrite <- Hdst in Hreg. simpl in Hreg. done.
Qed.

Lemma plain_backup_name_goes_to_docker_hub_witness :
  exists dst,
    toDestinationImage nginxLatest localhostRegistry = Ok dst
    /\ name.Repository_Registry (name.Tag_Repository dst) = dockerHub
    /\ ~ alreadyMirrored localhostController
           (setImage (name.Tag_Name dst) (sampleContainer "a" "nginx")).
Proof.
  eexists. split; [vm_compute; reflexivity|].
  destruct (plain_backup_name_goes_to_docker_hub localhostController "nginx" nginxLatest
              "localhost" _ (sampleContainer "a" "nginx") eq_refl eq_refl eq_refl eq_refl)
    as (Hreg & _ & _ & Hnot).
  exact (conj Hreg Hnot).
Defined.

(** ** An image that does not parse *)

(** X16.  One container whose image does not parse (an empty image, for
    one) blocks the whole deployment: every attempt returns an error and
    records the warning event, issues no patch and leaves the store as it
    was, wherever the container stands in the template and whatever the
    collaborators answer. *)
Theorem unparseable_image_blocks_deployment c env req w fetched container :
  Get_Deployment env (Request_NamespacedName req) w = Ok fetched ->
  container ∈ corev1.Containers
                (corev1.Spec (appsv1.Deployment_Template (appsv1.Deployment_Spec fetched))) ->
  isOk (name.ParseReference (corev1.Image container)) = false ->
  exists err,
    fst (ReconcileDeployment c env req w) = (mkResult false 0, Some err)
    /\ events (snd (ReconcileDeployment c env req w))
       = events w ++ [mkEvent "Deployment" (keyOf (appsv1.Deployment_ObjectMeta fetched))
                        corev1.EventTypeWarning "FailedCopyingImages" err]
    /\ patches (snd (ReconcileDeployment c env req w)) = patches w
    /\ store (snd (ReconcileDeployment c env req w)) = store w.
Proof.
  intros Hget Hin Hbad.
  destruct (unparseable_image_fails c env _ 0
              (appsv1.Deployment_Template (appsv1.Deployment_Spec fetched)) w
              container Hin Hbad) as (err & template' & w' & Hrun).
  pose proof (rangeContainers_world _ _ _ _ _ _ _ _ _ Hrun) as (Hs & He & Hp & _).
  exists err. unfold ReconcileDeployment, reconcilePodTemplate. rewrite Hget, Hrun.
  simpl. by rewrite He.
Qed.

Lemma unparseable_image_blocks_deployment_witness :
  let cs := [sampleContainer "a" "nginx"; sampleContainer "b" ""] in
  name.ParseReference "" = Err (ErrBadName "could not parse reference" "")
  /\ exists err,
       fst (ReconcileDeployment sampleController calm webRequest (worldWith cs))
       = (mkResult false 0, Some err)
       /\ patches (snd (ReconcileDeployment sampleController calm webRequest (worldWith cs)))
          = [].
Proof.
  intros cs. split; [reflexivity|].
  destruct (unparseable_image_blocks_deployment sampleController calm webRequest
              (worldWith cs) (sampleDeployment cs) (sampleContainer "b" "")
              eq_refl ltac:(apply list_elem_of_In; right; left; reflexivity) eq_refl)
    as (err & Hres & _ & Hpatches & _).
  exists err. exact (conj Hres Hpatches).
Defined.

(** * A container at which the rewrite fails *)

Lemma transferOf_mirrored c container :
  alreadyMirrored c container -> transferOf c container = [].
Proof.
  intros (srcImg & Hparse & Hreg). unfold transferOf. rewrite Hparse.
  by rewrite decide_True.
Qed.

Lemma transferOf_transfer c container p :
  transferFor c container p -> transferOf c container = [p].
Proof.
  intros (srcImg & dstImg & Hparse & Hdiff & Hdst & ->). unfold transferOf.
  rewrite Hparse. rewrite decide_False by done. by rewrite Hdst.
Qed.

Lemma transferOf_failing c env made container err :
  failsAt c env made container err ->
  transferOf c container = []
  \/ exists src dst cause,
       transferOf c container = [(src, dst)]
       /\ copyOutcome env made src dst = Some cause
       /\ err = Errorf "error copying image %q to %q: %w" [src; dst] cause.
Proof.
  intros [(cause & Hparse & _)|[(srcImg & cause & Hparse & Hdiff & Hdst & _)
                               |(src & dst & cause & Hfor & Hcopy & Herr)]].
  - left. unfold transferOf. by rewrite Hparse.
  - left. unfold transferOf. rewrite Hparse. rewrite decide_False by done. by rewrite Hdst.
  - right. exists src, dst, cause. split; [by apply transferOf_transfer|done].
Qed.

(** A run over a first part that returns no error goes on with the rest. *)
Lemma rangeContainers_app c env pre : forall i template w template0 w0 rest,
  rangeContainers c env i pre template w = (None, template0, w0) ->
  rangeContainers c env i (pre ++ rest) template w
  = rangeContainers c env (i + length pre) rest template0 w0.
Proof.
  induction pre as [|container pre IH]; intros i template w template0 w0 rest Hrun;
    simpl in Hrun.
  - injection Hrun as <- <-. simpl. by rewrite Nat.add_0_r.
  - simpl. destruct (name.ParseReference (corev1.Image container)) as [srcImg|]; [|done].
    replace (i + S (length pre)) with (S i + length pre) by lia.
    destruct (decide _); [by apply IH|].
    destruct (toDestinationImage srcImg (BackupRegistry c)) as [dstImg|]; [|done].
    destruct (copyOutcome env _ _ _); [done|]. by apply IH.
Qed.

(** Containers whose transfers are all answered without an error are
    visited without an error. *)
Lemma stepsSucceed_run c env pre : forall i template w,
  stepsSucceed c env (transfers w) pre ->
  exists template0 w0,
    rangeContainers c env i pre template w = (None, template0, w0)
    /\ transfers w0 = transfers w ++ flat_map (transferOf c) pre.
Proof.
  induction pre as [|container pre IH]; intros i template w Hsteps; simpl in Hsteps.
  - exists template, w. simpl. by rewrite app_nil_r.
  - destruct Hsteps as [[Hmirrored Hrest]|(src & dst & Hfor & Hcopy & Hrest)].
    + destruct (IH (S i) template w Hrest) as (t0 & w0 & Hrun & Htr).
      exists t0, w0. simpl flat_map. rewrite (transferOf_mirrored _ _ Hmirrored).
      destruct Hmirrored as (srcImg & Hparse & Hreg). simpl.
      rewrite Hparse. by rewrite decide_True.
    + simpl flat_map. rewrite (transferOf_transfer _ _ _ Hfor).
      destruct Hfor as (srcImg & dstImg & Hparse & Hdiff & Hdst & [= -> ->]).
      destruct (IH (S i) (setContainerImage i (name.Tag_Name dstImg) template)
                  {| store := store w;
                     transfers := transfers w ++ [(name.Name srcImg, name.Tag_Name dstImg)];
                     events := events w; patches := patches w |} Hrest)
        as (t0 & w0 & Hrun & Htr).
      exists t0, w0. simpl. rewrite Hparse. rewrite decide_False by done.
      rewrite Hdst, Hcopy. split; [exact Hrun|]. simpl in Htr. by rewrite Htr, <- app_assoc.
Qed.

(** The loop stops with the error at a container that fails. *)
Lemma failsAt_step c env container err : forall i template w rest,
  failsAt c env (transfers w) container err ->
  exists w1,
    rangeContainers c env i (container :: rest) template w = (Some err, template, w1)
    /\ transfers w1 = transfers w ++ transferOf c container.
Proof.
  intros i template w rest Hfail.
  destruct (transferOf_failing _ _ _ _ _ Hfail) as [Hnone|(src0 & dst0 & cause0 & Hone & _)].
  - rewrite Hnone, app_nil_r. simpl.
    destruct Hfail as [(cause & Hparse & ->)|[(srcImg & cause & Hparse & Hdiff & Hdst & ->)
                                             |(src & dst & cause & Hfor & _)]].
    + rewrite Hparse. by eexists.
    + rewrite Hparse. rewrite decide_False by done. rewrite Hdst. by eexists.
    + by rewrite (transferOf_transfer _ _ _ Hfor) in Hnone.
  - destruct Hfail as [(cause & Hparse & ->)|[(srcImg & cause & Hparse & Hdiff & Hdst & ->)
                                             |(src & dst & cause & Hfor & Hcopy & ->)]].
    + unfold transferOf in Hone. by rewrite Hparse in Hone.
    + unfold transferOf in Hone. rewrite Hparse in Hone.
      rewrite decide_False in Hone by done. by rewrite Hdst in Hone.
    + rewrite (transferOf_transfer _ _ _ Hfor). simpl.
      destruct Hfor as (srcImg & dstImg & Hparse & Hdiff & Hdst & [= -> ->]).
      rewrite Hparse. rewrite decide_False by done. rewrite Hdst, Hcopy. by eexists.
Qed.

Lemma failing_container_fails_rewrite c env template w pre failing post err :
  corev1.Containers (corev1.Spec template) = pre ++ failing :: post ->
  stepsSucceed c env (transfers w) pre ->
  failsAt c env (transfers w ++ flat_map (transferOf c) pre) failing err ->
  exists template1 w1,
    reconcilePodTemplate c env template w = (Some err, template1, w1)
    /\ transfers w1 = transfers w ++ flat_map (transferOf c) (pre ++ [failing])
    /\ drop (length pre) (corev1.Containers (corev1.Spec template1)) = failing :: post.
Proof.
  intros Hcs Hsteps Hfail.
  destruct (stepsSucceed_run c env pre 0 template w Hsteps) as (t0 & w0 & Hpre & Htr).
  rewrite <- Htr in Hfail.
  destruct (failsAt_step c env failing err (0 + length pre) t0 w0 post Hfail)
    as (w1 & Hstep & Htr1).
  exists t0, w1. unfold reconcilePodTemplate. rewrite Hcs.
  rewrite (rangeContainers_app _ _ _ _ _ _ _ _ _ Hpre). split; [exact Hstep|]. split.
  - rewrite Htr1, Htr, flat_map_app. cbn [flat_map].
    by rewrite app_nil_r, <- app_assoc.
  - rewrite <- (drop_app_length pre (failing :: post)), <- Hcs.
    apply list_eq. intros j. rewrite !lookup_drop.
    eapply rangeContainers_outside; [exact Hpre|]. lia.
Qed.

(** C1.  Take a pod template and any of its containers, the first or a
    later one.  If the loop gets to that container (every container before
    it is in the backup registry already or has its transfer answered without
    an error) and the container fails (its image does not parse, or its
    destination cannot be named, or its transfer is answered with an error),
    then the rewrite returns the error of that container, has asked for the
    transfers of the containers before it and of the failing one and for no
    other, and has left the failing container and all later ones untouched in
    memory.  An attempt on a deployment with that template, and likewise an
    attempt on a daemon set with that template, returns that error, issues no
    patch and leaves the store as it was. *)
Theorem failed_rewrite_aborts_attempt c env req w template pre failing post err :
  corev1.Containers (corev1.Spec template) = pre ++ failing :: post ->
  stepsSucceed c env (transfers w) pre ->
  failsAt c env (transfers w ++ flat_map (transferOf c) pre) failing err ->
  (exists template1 w1,
      reconcilePodTemplate c env template w = (Some err, template1, w1)
      /\ transfers w1 = transfers w ++ flat_map (transferOf c) (pre ++ [failing])
      /\ drop (length pre) (corev1.Containers (corev1.Spec template1)) = failing :: post)
  /\ (forall fetched,
        Get_Deployment env (Request_NamespacedName req) w = Ok fetched ->
        appsv1.Deployment_Template (appsv1.Deployment_Spec fetched) = template ->
        fst (ReconcileDeployment c env req w) = (mkResult false 0, Some err)
        /\ store (snd (ReconcileDeployment c env req w)) = store w
        /\ patches (snd (ReconcileDeployment c env req w)) = patches w
        /\ transfers (snd (ReconcileDeployment c env req w))
           = transfers w ++ flat_map (transferOf c) (pre ++ [failing]))
  /\ (forall fetched,
        Get_DaemonSet env (Request_NamespacedName req) w = Ok fetched ->
        appsv1.DaemonSet_Template (appsv1.DaemonSet_Spec fetched) = template ->
        fst (ReconcileDaemonSet c env req w) = (mkResult false 0, Some err)
        /\ store (snd (ReconcileDaemonSet c env req w)) = store w
        /\ patches (snd (ReconcileDaemonSet c env req w)) = patches w
        /\ transfers (snd (ReconcileDaemonSet c env req w))
           = transfers w ++ flat_map (transferOf c) (pre ++ [failing])).
Proof.
  intros Hcs Hsteps Hfail.
  destruct (failing_container_fails_rewrite _ _ _ _ _ _ _ _ Hcs Hsteps Hfail)
    as (template1 & w1 & Hrun & Htr & Hdrop).
  pose proof (rangeContainers_world _ _ _ _ _ _ _ _ _ Hrun) as (Hs & _ & Hp & _).
  split; [by exists template1, w1|]. split.
  - intros fetched Hget Htemplate. unfold ReconcileDeployment.
    rewrite Hget, Htemplate, Hrun. by simpl.
  - intros fetched Hget Htemplate. unfold ReconcileDaemonSet.
    rewrite Hget, Htemplate, Hrun. by simpl.
Qed.

Lemma nginx_transfer :
  transferFor sampleController (sampleContainer "a" "nginx")
    ("index.docker.io/library/nginx:latest",
     "10.96.0.11:5001/index_docker_io/library/nginx:latest").
Proof.
  exists nginxLatest. eexists. split; [reflexivity|]. split; [discriminate|].
  split; [vm_compute; reflexivity|reflexivity].
Defined.

Lemma redis_transfer :
  transferFor sampleController (sampleContainer "b" "redis")
    ("index.docker.io/library/redis:latest",
     "10.96.0.11:5001/index_docker_io/library/redis:latest").
Proof.
  eexists _, _. split; [vm_compute; reflexivity|]. split; [discriminate|].
  split; [vm_compute; reflexivity|reflexivity].
Defined.

(** The scenario [A: needs mirroring, B: transfer fails, C]: the second
    transfer is answered with an error; one transfer for A, the failed one
    for B, none for C, no patch, the store as before, for the deployment and
    for the daemon set. *)
Lemma failed_rewrite_aborts_attempt_witness :
  let w := worldWith nginxRedis in
  let err := Errorf "error copying image %q to %q: %w"
               ["index.docker.io/library/redis:latest";
                "10.96.0.11:5001/index_docker_io/library/redis:latest"]
               (ErrOther "unexpected status code 503") in
  let made := [("index.docker.io/library/nginx:latest",
                "10.96.0.11:5001/index_docker_io/library/nginx:latest");
               ("index.docker.io/library/redis:latest",
                "10.96.0.11:5001/index_docker_io/library/redis:latest")] in
  (fst (ReconcileDeployment sampleController redisUnavailable webRequest w)
   = (mkResult false 0, Some err)
   /\ store (snd (ReconcileDeployment sampleController redisUnavailable webRequest w))
      = store w
   /\ patches (snd (ReconcileDeployment sampleController redisUnavailable webRequest w)) = []
   /\ transfers (snd (ReconcileDeployment sampleController redisUnavailable webRequest w))
      = made)
  /\ (fst (ReconcileDaemonSet sampleController redisUnavailable webRequest w)
      = (mkResult false 0, Some err)
      /\ store (snd (ReconcileDaemonSet sampleController redisUnavailable webRequest w))
         = store w
      /\ patches (snd (ReconcileDaemonSet sampleController redisUnavailable webRequest w)) = []
      /\ transfers (snd (ReconcileDaemonSet sampleController redisUnavailable webRequest w))
         = made).
Proof.
  intros w err made.
  destruct (failed_rewrite_aborts_attempt sampleController redisUnavailable webRequest w
              (sampleTemplate nginxRedis)
              [sampleContainer "a" "nginx"] (sampleContainer "b" "redis")
              [sampleContainer "c" "grafana/grafana:main"] err eq_refl)
    as (_ & Hdeployment & HdaemonSet).
  - right. eexists _, _. split; [exact nginx_transfer|]. split; [reflexivity|exact I].
  - right; right. eexists _, _, _. split; [exact redis_transfer|].
    split; reflexivity.
  - split.
    + exact (Hdeployment (sampleDeployment nginxRedis) eq_refl eq_refl).
    + exact (HdaemonSet (sampleDaemonSet nginxRedis) eq_refl eq_refl).
Defined.

(** X4.  A rewrite that returns an error failed at one container of the
    template, which the loop reached without an error: the error wraps the
    error of the parser with that container's image, or the error of the
    destination naming with the printed source, or, with the printed source
    and destination, the error that the transfer collaborator answered for
    them after the transfers of the containers before.  The transfers made
    are those of the containers before and of the failing one; a failed
    transfer is the last one made. *)
Theorem failed_rewrite_names_image c env template w err template1 w1
    (Hrun : reconcilePodTemplate c env template w = (Some err, template1, w1)) :
  exists pre failing post,
    corev1.Containers (corev1.Spec template) = pre ++ failing :: post
    /\ stepsSucceed c env (transfers w) pre
    /\ failsAt c env (transfers w ++ flat_map (transferOf c) pre) failing err
    /\ transfers w1 = transfers w ++ flat_map (transferOf c) (pre ++ [failing])
    /\ (forall src dst cause,
          err = Errorf "error copying image %q to %q: %w" [src; dst] cause ->
          copyOutcome env (transfers w ++ flat_map (transferOf c) pre) src dst = Some cause
          /\ List.last (transfers w1) ("", "") = (src, dst)).
Proof.
  unfold reconcilePodTemplate in Hrun.
  assert (Hshape : exists pre failing post,
            corev1.Containers (corev1.Spec template) = pre ++ failing :: post
            /\ stepsSucceed c env (transfers w) pre
            /\ failsAt c env (transfers w ++ flat_map (transferOf c) pre) failing err
            /\ transfers w1 = transfers w ++ flat_map (transferOf c) (pre ++ [failing])).
  { revert Hrun. generalize 0, template at 2, w.
    induction (corev1.Containers (corev1.Spec template)) as [|container rest IH];
      intros i t w0 Hrun; simpl in Hrun; [done|].
    destruct (name.ParseReference (corev1.Image container)) as [srcImg|perr] eqn:Hparse.
    2:{ injection Hrun as <- _ <-. exists [], container, rest.
        assert (Hfail : failsAt c env (transfers w0 ++ flat_map (transferOf c) [])
                          container
                          (Errorf "failed parsing image %q: %w" [corev1.Image container] perr))
          by (left; by eexists).
        repeat split; trivial. simpl. unfold transferOf. rewrite Hparse. by rewrite !app_nil_r. }
    destruct (decide _) as [Hsame|Hdiff].
    { destruct (IH _ _ _ Hrun) as (pre & failing & post & -> & Hsteps & Hfail & Htr).
      assert (Hmirrored : alreadyMirrored c container) by (by exists srcImg).
      exists (container :: pre), failing, post. split; [done|]. split; [by left|].
      simpl flat_map. rewrite (transferOf_mirrored _ _ Hmirrored). by split. }
    destruct (toDestinationImage srcImg (BackupRegistry c)) as [dstImg|derr] eqn:Hdst.
    2:{ injection Hrun as <- _ <-. exists [], container, rest.
        assert (Hfail : failsAt c env (transfers w0 ++ flat_map (transferOf c) [])
                          container
                          (Errorf "failed rewriting image %q: %w" [name.Name srcImg] derr))
          by (right; left; by eexists _, _).
        repeat split; trivial. simpl. unfold transferOf. rewrite Hparse.
        rewrite decide_False by done. rewrite Hdst. by rewrite !app_nil_r. }
    assert (Hfor : transferFor c container (name.Name srcImg, name.Tag_Name dstImg))
      by (by exists srcImg, dstImg).
    destruct (copyOutcome env _ _ _) as [cerr|] eqn:Hcopy.
    - injection Hrun as <- _ <-. exists [], container, rest.
      assert (Hfail : failsAt c env (transfers w0 ++ flat_map (transferOf c) [])
                        container
                        (Errorf "error copying image %q to %q: %w"
                           [name.Name srcImg; name.Tag_Name dstImg] cerr)).
      { right; right. eexists _, _, _. split; [exact Hfor|]. simpl.
        by rewrite app_nil_r. }
      repeat split; trivial. simpl. by rewrite (transferOf_transfer _ _ _ Hfor).
    - destruct (IH _ _ _ Hrun) as (pre & failing & post & -> & Hsteps & Hfail & Htr).
      simpl in Hsteps, Hfail, Htr.
      exists (container :: pre), failing, post. split; [done|]. split.
      { right. eexists _, _. split; [exact Hfor|]. by split. }
      simpl flat_map. rewrite (transferOf_transfer _ _ _ Hfor).
      rewrite <- !app_assoc in Hfail, Htr. by split. }
  destruct Hshape as (pre & failing & post & Hcs & Hsteps & Hfail & Htr).
  exists pre, failing, post. repeat (split; [done|]).
  intros src dst cause ->.
  destruct Hfail as [(cause' & _ & [=])|[(srcImg & cause' & _ & _ & _ & [=])
                                        |(src' & dst' & cause' & Hfor & Hcopy & [= <- <- <-])]].
  split; [done|].
  rewrite Htr, flat_map_app. cbn [flat_map].
  rewrite (transferOf_transfer _ _ _ Hfor), app_nil_r, !app_assoc. by rewrite last_last.
Qed.

Lemma failed_rewrite_names_image_witness :
  exists pre failing post,
    nginxRedis = pre ++ failing :: post
    /\ failsAt sampleController redisUnavailable
         ([] ++ flat_map (transferOf sampleController) pre) failing
         (Errorf "error copying image %q to %q: %w"
            ["index.docker.io/library/redis:latest";
             "10.96.0.11:5001/index_docker_io/library/redis:latest"]
            (ErrOther "unexpected status code 503"))
    /\ copyOutcome redisUnavailable ([] ++ flat_map (transferOf sampleController) pre)
         "index.docker.io/library/redis:latest"
         "10.96.0.11:5001/index_docker_io/library/redis:latest"
       = Some (ErrOther "unexpected status code 503").
Proof.
  destruct (failed_rewrite_names_image sampleController redisUnavailable
              (sampleTemplate nginxRedis) (worldWith nginxRedis) _ _ _ eq_refl)
    as (pre & failing & post & Hcs & _ & Hfail & _ & Hcopy).
  exists pre, failing, post. split; [exact Hcs|]. split; [exact Hfail|].
  exact (proj1 (Hcopy _ _ _ eq_refl)).
Defined.
